(** * RackPower-Architect: the CSV importer and rack allocator

    A shallow embedding of [src/utils/csvParser.ts] ([parseCSV] and its local
    helper [parseLine]) together with the properties of the importer and of
    the top-down rack allocator.

    Modelling conventions.
    - A JavaScript string is a [string]: a sequence of code units, here the
      code units 0..255.  White space is the set that [String.prototype.trim]
      and the regular expression class [\s] share, restricted to that range.
    - A JavaScript number that holds a power figure is a binary64 [float]
      (the kernel's primitive floats), with [nan] for [NaN].
    - A JavaScript number that holds a count (quantity, power-supply count,
      rack units, loop indices) is an exact integer ([Z] or [nat]); the
      result of [parseInt] is an [option Z] with [None] for [NaN].  This is
      exact for every count below 2^53.
    - [row[idx]] on an array is [nth_error]: [None] stands for [undefined].
    - [findIndex] returns an [option nat]: [None] stands for [-1].
    - The [Map] of rooms keeps its keys in insertion order: it is an
      association list whose new keys are appended at the end. *)

From Stdlib Require Import List String Ascii ZArith Bool Lia Floats.
From Stdlib Require Import DecimalString DecimalNat Permutation.
Import ListNotations.

Open Scope string_scope.
Open Scope list_scope.

(* The literal 0.6 of the source is, as in JavaScript, the nearest binary64
   number. *)
Set Warnings "-inexact-float".

(* ================================================================== *)
(** * JavaScript built-ins used by the importer *)
(* ================================================================== *)

Module JS.

(** The double quote and the characters the importer tests for. *)
Definition dquote : ascii := "034"%char.
Definition comma : ascii := ","%char.
Definition newline : ascii := "010"%char.
Definition dash : ascii := "-"%char.

(** White space of [trim] and of [\s], among the code units 0..255:
    TAB, LF, VT, FF, CR, SPACE and NBSP. *)
Definition isWhiteSpace (c : ascii) : bool :=
  let n := nat_of_ascii c in
  ((n =? 9) || (n =? 10) || (n =? 11) || (n =? 12) || (n =? 13)
   || (n =? 32) || (n =? 160))%nat.

Fixpoint trimStart (s : string) : string :=
  match s with
  | EmptyString => EmptyString
  | String c r => if isWhiteSpace c then trimStart r else s
  end.

Fixpoint trimEnd (s : string) : string :=
  match s with
  | EmptyString => EmptyString
  | String c r =>
      match trimEnd r with
      | EmptyString => if isWhiteSpace c then EmptyString else String c EmptyString
      | r' => String c r'
      end
  end.

(** [s.trim()] *)
Definition trim (s : string) : string := trimEnd (trimStart s).

(** [s.replace(/^"|"$/g, '')]: one quote is removed at the start when the
    string starts with one, and one at the end when what remains ends with
    one. *)
Definition dropLeadingQuote (s : string) : string :=
  match s with
  | String c r => if Ascii.eqb c dquote then r else s
  | EmptyString => EmptyString
  end.

Fixpoint dropTrailingQuote (s : string) : string :=
  match s with
  | EmptyString => EmptyString
  | String c EmptyString => if Ascii.eqb c dquote then EmptyString else s
  | String c r => String c (dropTrailingQuote r)
  end.

Definition stripQuotes (s : string) : string :=
  dropTrailingQuote (dropLeadingQuote s).

(** [s.replace(/\s+/g, '-')]: every maximal run of white space becomes one
    dash.  [inRun] tells that the previous character was white space. *)
Fixpoint replaceRuns (inRun : bool) (s : string) : string :=
  match s with
  | EmptyString => EmptyString
  | String c r =>
      if isWhiteSpace c
      then (if inRun then replaceRuns true r else String dash (replaceRuns true r))
      else String c (replaceRuns false r)
  end.

Definition replaceWhiteSpace (s : string) : string := replaceRuns false s.

(** [c.toLowerCase()] on one code unit: A-Z, and the Latin-1 capitals
    192..222 except the multiplication sign 215. *)
Definition toLowerChar (c : ascii) : ascii :=
  let n := nat_of_ascii c in
  if (((65 <=? n) && (n <=? 90))
      || ((192 <=? n) && (n <=? 222) && negb (n =? 215)))%nat
  then ascii_of_nat (n + 32) else c.

Fixpoint toLowerCase (s : string) : string :=
  match s with
  | EmptyString => EmptyString
  | String c r => String (toLowerChar c) (toLowerCase r)
  end.

(** [h.includes(k)] *)
Fixpoint includes (h k : string) : bool :=
  prefix k h ||
  match h with
  | EmptyString => false
  | String _ r => includes r k
  end.

(** [s.split(sep)] for a one-character separator: never empty. *)
Fixpoint split (sep : ascii) (s : string) : list string :=
  match s with
  | EmptyString => [EmptyString]
  | String c r =>
      if Ascii.eqb c sep then EmptyString :: split sep r
      else match split sep r with
           | x :: xs => String c x :: xs
           | [] => [String c EmptyString]
           end
  end.

(** [arr.findIndex(p)], [None] for [-1]. *)
Fixpoint findIndex {A : Type} (p : A -> bool) (l : list A) : option nat :=
  match l with
  | [] => None
  | x :: r => if p x then Some 0%nat
              else match findIndex p r with
                   | Some j => Some (S j)
                   | None => None
                   end
  end.

(** [String(n)] for a non-negative integer: its decimal digits. *)
Definition numberToString (n : nat) : string :=
  NilZero.string_of_uint (Nat.to_uint n).

(** ** [parseInt] *)

(** The value of [c] as a digit in the given radix, if it is one. *)
Definition digitOf (radix : Z) (c : ascii) : option Z :=
  (let n := Z.of_nat (nat_of_ascii c) in
   let v := if (48 <=? n) && (n <=? 57) then Some (n - 48)
            else if (97 <=? n) && (n <=? 122) then Some (n - 87)
            else if (65 <=? n) && (n <=? 90) then Some (n - 55)
            else None in
   match v with
   | Some d => if d <? radix then Some d else None
   | None => None
   end)%Z.

(** The longest prefix of digits, as a number; [acc] is [None] until a
    digit has been read. *)
Fixpoint readDigits (radix : Z) (s : string) (acc : option Z) : option Z :=
  match s with
  | EmptyString => acc
  | String c r =>
      match digitOf radix c with
      | Some d =>
          readDigits radix r
            (Some (radix * (match acc with Some a => a | None => 0 end) + d)%Z)
      | None => acc
      end
  end.

(** [parseInt(v)] with no radix: leading white space, a sign, an optional
    [0x] prefix, then the longest run of digits; [None] is [NaN], which is
    also the result on [undefined].  The value is the exact integer, which
    is the number [parseInt] returns below 2^53. *)
Definition parseInt (v : option string) : option Z :=
  match v with
  | None => None
  | Some s =>
      let s := trimStart s in
      let '(neg, s) :=
        match s with
        | String "-" r => (true, r)
        | String "+" r => (false, r)
        | _ => (false, s)
        end in
      let '(radix, s) :=
        match s with
        | String "0" (String "x" r) => (16%Z, r)
        | String "0" (String "X" r) => (16%Z, r)
        | _ => (10%Z, s)
        end in
      match readDigits radix s None with
      | Some n => Some (if neg then (- n)%Z else n)
      | None => None
      end
  end.

(** ** [parseFloat] *)

Definition isDigit (c : ascii) : bool :=
  let n := nat_of_ascii c in ((48 <=? n) && (n <=? 57))%nat.

(** The longest prefix of decimal digits and what follows it. *)
Fixpoint spanDigits (s : string) : string * string :=
  match s with
  | EmptyString => (EmptyString, EmptyString)
  | String c r =>
      if isDigit c
      then let '(d, rest) := spanDigits r in (String c d, rest)
      else (EmptyString, s)
  end.

(** The value of a string of decimal digits. *)
Fixpoint digitsValue (acc : Z) (s : string) : Z :=
  match s with
  | EmptyString => acc
  | String c r => digitsValue (10 * acc + (Z.of_nat (nat_of_ascii c) - 48))%Z r
  end.

(** The binary64 number nearest to [(-1)^neg * m * 10^e] (ties to even):
    for [e >= 0] the integer is rounded, for [e < 0] the quotient of two
    integers is. *)
Definition decimalToFloat (neg : bool) (m e : Z) : float :=
  match m with
  | Zpos p =>
      if (0 <=? e)%Z
      then SF2Prim (binary_normalize prec emax
                      (if neg then - (m * 10 ^ e) else m * 10 ^ e)%Z 0 false)
      else SF2Prim (SFdiv prec emax (S754_finite neg p 0)
                      (S754_finite false (Z.to_pos (10 ^ (- e))) 0))
  | _ => if neg then neg_zero else zero
  end.

(** The exponent part [e[+-]digits] at the start of [s], when there is one:
    ["e"] with no digit after it is not an exponent. *)
Definition exponentPart (s : string) : Z :=
  match s with
  | String c r =>
      if Ascii.eqb c "e" || Ascii.eqb c "E"
      then let '(eneg, r) :=
             match r with
             | String "-" r' => (true, r')
             | String "+" r' => (false, r')
             | _ => (false, r)
             end in
           match fst (spanDigits r) with
           | EmptyString => 0%Z
           | ds => if eneg then (- digitsValue 0 ds)%Z else digitsValue 0 ds
           end
      else 0%Z
  | EmptyString => 0%Z
  end.

(** [parseFloat(v)]: leading white space, a sign, then [Infinity] or the
    longest prefix that is a decimal literal (digits, a fraction, an
    exponent); [nan] when there is none, and on [undefined]. *)
Definition parseFloat (v : option string) : float :=
  match v with
  | None => nan
  | Some s =>
      let s := trimStart s in
      let '(neg, s) :=
        match s with
        | String "-" r => (true, r)
        | String "+" r => (false, r)
        | _ => (false, s)
        end in
      if prefix "Infinity" s then (if neg then neg_infinity else infinity)
      else
        let '(ip, r1) := spanDigits s in
        let '(fp, r2) :=
          match r1 with
          | String "." r => spanDigits r
          | _ => (EmptyString, r1)
          end in
        match ip, fp with
        | EmptyString, EmptyString => nan
        | _, _ =>
            decimalToFloat neg (digitsValue 0 (ip ++ fp))
              (exponentPart r2 - Z.of_nat (String.length fp))
        end
  end.

(** An integer count as a number (exact below 2^53). *)
Definition numberOfZ (z : Z) : float :=
  SF2Prim (binary_normalize prec emax z 0 false).

End JS.

Import JS.

(* ================================================================== *)
(** * Data model *)
(* ================================================================== *)

(** Modelled from the spec: [src/types.ts] is missing; a power connection is
    a reference to a PDU identifier and an outlet index.  The importer only
    ever stores [null] ([None]) in a slot. *)
Record PSUConnection : Type := {
  pduId : string;
  socketIndex : nat
}.

(** The object literal of [parseCSV], line 105. *)
Record Device : Type := {
  id : string;
  name : string;
  room : string;
  psuCount : Z;
  typicalPower : float;
  powerRatingPerDevice : float;
  connectionType : string;
  uHeight : Z;
  uPosition : option Z;
  psuConnections : list (nat * option PSUConnection)
}.

(** The object literal pushed on [result], line 151. *)
Record RackGroup : Type := {
  roomId : string;
  devices : list Device;
  totalPower : float
}.

(* ================================================================== *)
(** * Field splitting: [parseLine] *)
(* ================================================================== *)

(** The [for] loop of [parseLine] with its three variables; at the end of
    the text the last cell is pushed. *)
Fixpoint parseLine_loop (text : string) (result : list string) (cell : string)
    (inQuotes : bool) : list string :=
  match text with
  | EmptyString => result ++ [trim cell]
  | String char rest =>
      if Ascii.eqb char dquote
      then parseLine_loop rest result cell (negb inQuotes)
      else if Ascii.eqb char comma && negb inQuotes
      then parseLine_loop rest (result ++ [trim cell]) EmptyString inQuotes
      else parseLine_loop rest result (cell ++ String char EmptyString)%string inQuotes
  end.

Definition parseLine (text : string) : list string :=
  parseLine_loop text [] EmptyString false.

(* ================================================================== *)
(** * Column resolution *)
(* ================================================================== *)

Definition getColIndex (headers keywords : list string) : option nat :=
  findIndex
    (fun h => existsb (fun k => includes (toLowerCase h) (toLowerCase k)) keywords)
    headers.

Record Columns : Type := {
  idxRoom : option nat;
  idxDevice : option nat;
  idxRackU : option nat;
  idxQty : option nat;
  idxPSCount : option nat;
  idxMaxPowerPerDevice : option nat;
  idxTypicalPower : option nat;
  idxTotalMaxPower : option nat;
  idxConnType : option nat;
  idxPSURating : option nat
}.

Definition resolveColumns (headers : list string) : Columns := {|
  idxRoom := getColIndex headers ["Room"; "Location"; "Rack Name"];
  idxDevice := getColIndex headers ["Device"; "Model"; "Equipment"];
  idxRackU := getColIndex headers ["Rack Size"; "Size (U)"; "U Height"; "Height"];
  idxQty := getColIndex headers
    ["Total No. of Device"; "Quantity"; "Qty"; "Count"; "No. of Devices"];
  idxPSCount := getColIndex headers ["Total No. of PS"; "PSU Count"; "Power Supplies"];
  idxMaxPowerPerDevice := getColIndex headers ["Max Power (Watt)"; "Max Power"; "Power (W)"];
  idxTypicalPower := getColIndex headers ["Typical Power"; "Typical Load"];
  idxTotalMaxPower := getColIndex headers ["Total Max Power Consumption"; "Total Power"];
  idxConnType := getColIndex headers ["Connection Type"; "Plug Type"; "Socket"];
  idxPSURating := getColIndex headers ["PSU Rating"; "PSU W"; "Power Supply Rating"]
|}.

(* ================================================================== *)
(** * What one row derives (the local variables of the loop body) *)
(* ================================================================== *)

Definition DefaultRoom : string := "Default Room".
Definition UnknownDevice : string := "Unknown Device".

Module Fields.
Section Fields.
Variable cols : Columns.
Variable row : list string.

(** Lines 50-61: the row's room and the new value of [lastRoom]. *)
Definition room (lastRoom : string) : string * string :=
  match idxRoom cols with
  | Some j =>
      match nth_error row j with
      | Some val =>
          if negb (String.eqb val EmptyString)
             && (0 <? String.length (trim (stripQuotes val)))%nat
          then (trim (stripQuotes val), trim (stripQuotes val))
          else (lastRoom, lastRoom)
      | None => (lastRoom, lastRoom)
      end
  | None => (DefaultRoom, lastRoom)
  end.

(** Line 63. *)
Definition deviceName : string :=
  match idxDevice cols with
  | Some j =>
      match nth_error row j with
      | Some v =>
          match stripQuotes v with
          | EmptyString => UnknownDevice
          | n => n
          end
      | None => UnknownDevice
      end
  | None => UnknownDevice
  end.

(** [parseInt(row[idx])] kept when it is a number above 0, else the
    default: the pattern of lines 66-70, 73-77 and 81-87. *)
Definition positiveIntOr (idx : option nat) (default : Z) : Z :=
  match idx with
  | Some j =>
      match parseInt (nth_error row j) with
      | Some parsed => if (0 <? parsed)%Z then parsed else default
      | None => default
      end
  | None => default
  end.

Definition qty : Z := positiveIntOr (idxQty cols) 1.

Definition psCountTotal : Z := positiveIntOr (idxPSCount cols) qty.

(** Line 78: [Math.max(1, Math.floor(psCountTotal / qty))]; the whole part
    of the exact quotient, which is that of the binary64 quotient for
    counts below 2^53. *)
Definition psPerDevice : Z := Z.max 1 (psCountTotal / qty).

Definition uHeight : Z := positiveIntOr (idxRackU cols) 1.

(** [idx !== -1 ? parseFloat(row[idx]) : NaN], lines 91-93 and 99. *)
Definition floatAt (idx : option nat) : float :=
  match idx with
  | Some j => parseFloat (nth_error row j)
  | None => nan
  end.

Definition rawMax : float := floatAt (idxMaxPowerPerDevice cols).
Definition rawTotal : float := floatAt (idxTotalMaxPower cols).
Definition rawRating : float := floatAt (idxPSURating cols).

(** Lines 90-97. *)
Definition maxPower : float :=
  if negb (is_nan rawMax) && (0 <? rawMax)%float then rawMax
  else if negb (is_nan rawTotal) && (0 <? rawTotal)%float
  then (rawTotal / numberOfZ qty)%float
  else if negb (is_nan rawRating) then (rawRating * numberOfZ psPerDevice)%float
  else 0%float.

(** Lines 99-100. *)
Definition typicalPower : float :=
  let typicalPower := floatAt (idxTypicalPower cols) in
  if is_nan typicalPower then (maxPower * 0.6)%float else typicalPower.

(** Line 102. *)
Definition connectionType : string :=
  match idxConnType cols with
  | Some j =>
      match nth_error row j with
      | Some v =>
          match stripQuotes v with
          | EmptyString => "C13"
          | c => c
          end
      | None => "C13"
      end
  | None => "C13"
  end.

End Fields.
End Fields.

(* ================================================================== *)
(** * The main loop: replication and grouping by room *)
(* ================================================================== *)

(** Line 106: the id template and its white-space replacement. *)
Definition deviceId (room deviceName : string) (i k : nat) : string :=
  replaceWhiteSpace
    (room ++ "-" ++ deviceName ++ "-" ++ numberToString i ++ "-" ++ numberToString k)%string.

(** Lines 105-116: replica [k] of the row at line [i]. *)
Definition newDevice (cols : Columns) (row : list string) (room : string)
    (i k : nat) : Device := {|
  id := deviceId room (Fields.deviceName cols row) i k;
  name := Fields.deviceName cols row;
  room := room;
  psuCount := Fields.psPerDevice cols row;
  typicalPower := Fields.typicalPower cols row;
  powerRatingPerDevice := Fields.maxPower cols row;
  connectionType := Fields.connectionType cols row;
  uHeight := Fields.uHeight cols row;
  uPosition := None;
  psuConnections := []
|}.

(** [racksMap]: a [Map<string, Device[]>], keys in insertion order. *)
Definition RacksMap : Type := list (string * list Device).

Fixpoint mapHas (m : RacksMap) (key : string) : bool :=
  match m with
  | [] => false
  | (k, _) :: rest => String.eqb k key || mapHas rest key
  end.

(** [m.set(key, v)]: the value of an existing key is replaced in place, a
    new key goes to the end. *)
Fixpoint mapSet (m : RacksMap) (key : string) (v : list Device) : RacksMap :=
  match m with
  | [] => [(key, v)]
  | (k, ds) :: rest =>
      if String.eqb k key then (k, v) :: rest else (k, ds) :: mapSet rest key v
  end.

(** [m.get(key)?.push(d)]: the array stored under [key] grows by [d];
    nothing happens when the key is absent. *)
Fixpoint mapPush (m : RacksMap) (key : string) (d : Device) : RacksMap :=
  match m with
  | [] => []
  | (k, ds) :: rest =>
      if String.eqb k key then (k, ds ++ [d]) :: rest
      else (k, ds) :: mapPush rest key d
  end.

(** Lines 118-119. *)
Definition addDevice (m : RacksMap) (room : string) (device : Device) : RacksMap :=
  mapPush (if mapHas m room then m else mapSet m room []) room device.

(** The two variables the loop over the lines updates. *)
Record LoopState : Type := {
  racksMap : RacksMap;
  lastRoom : string
}.

(** Line 47: [row.length < headers.length * 0.5 && row.length < 2]; the
    comparison with half the header count is made on integers. *)
Definition skipRow (headers row : list string) : bool :=
  ((2 * List.length row <? List.length headers) && (List.length row <? 2))%nat.

(** Lines 104-120: the replicas of one row, pushed in the order of [k]. *)
Definition addReplicas (cols : Columns) (row : list string) (room : string)
    (i : nat) (m : RacksMap) : RacksMap :=
  fold_left (fun m k => addDevice m room (newDevice cols row room i k))
    (seq 0 (Z.to_nat (Fields.qty cols row))) m.

(** Lines 46-120: one iteration of the loop over the lines. *)
Definition processRow (headers : list string) (cols : Columns) (st : LoopState)
    (i : nat) (line : string) : LoopState :=
  let row := parseLine line in
  if skipRow headers row then st
  else
    let '(room, lastRoom') := Fields.room cols row (lastRoom st) in
    {| racksMap := addReplicas cols row room i (racksMap st);
       lastRoom := lastRoom' |}.

(** Line 45: the loop, from line [i] on. *)
Fixpoint rowsLoop (headers : list string) (cols : Columns) (st : LoopState)
    (i : nat) (lines : list string) : LoopState :=
  match lines with
  | [] => st
  | line :: rest => rowsLoop headers cols (processRow headers cols st i line) (S i) rest
  end.

(* ================================================================== *)
(** * The rack allocator *)
(* ================================================================== *)

(** Lines 138-143: a placed device, with one empty slot per power supply. *)
Definition placeAt (d : Device) (pos : Z) : Device := {|
  id := id d; name := name d; room := room d; psuCount := psuCount d;
  typicalPower := typicalPower d; powerRatingPerDevice := powerRatingPerDevice d;
  connectionType := connectionType d; uHeight := uHeight d;
  uPosition := Some pos;
  psuConnections := map (fun p => (p, None)) (seq 0 (Z.to_nat (psuCount d)))
|}.

(** Line 147: a device that does not fit. *)
Definition unplaced (d : Device) : Device := {|
  id := id d; name := name d; room := room d; psuCount := psuCount d;
  typicalPower := typicalPower d; powerRatingPerDevice := powerRatingPerDevice d;
  connectionType := connectionType d; uHeight := uHeight d;
  uPosition := None;
  psuConnections := []
|}.

(** Lines 131-148: [devices.map] with the cursor [currentU] it updates. *)
Fixpoint positionDevices (currentU : Z) (devices : list Device) : list Device :=
  match devices with
  | [] => []
  | d :: rest =>
      if (1 <=? currentU - uHeight d + 1)%Z
      then placeAt d currentU :: positionDevices (currentU - uHeight d) rest
      else unplaced d :: positionDevices currentU rest
  end.

(** Line 150. *)
Definition sumPower (devices : list Device) : float :=
  fold_left (fun sum d => (sum + powerRatingPerDevice d)%float) devices 0%float.

(** Lines 124-152: the group of one room; the rack has 48 units. *)
Definition rackGroup (entry : string * list Device) : RackGroup :=
  let positionedDevices := positionDevices 48 (snd entry) in
  {| roomId := fst entry;
     devices := positionedDevices;
     totalPower := sumPower positionedDevices |}.

(* ================================================================== *)
(** * [parseCSV] *)
(* ================================================================== *)

Definition initialState : LoopState :=
  {| racksMap := []; lastRoom := DefaultRoom |}.

Definition headersOf (line : string) : list string :=
  map (fun h => trim (stripQuotes h)) (parseLine line).

Definition parseCSV (csvText : string) : list RackGroup :=
  let lines := split newline (trim csvText) in
  if (List.length lines <? 2)%nat then []
  else
    let headers := headersOf (hd EmptyString lines) in
    let cols := resolveColumns headers in
    let st := rowsLoop headers cols initialState 1 (tl lines) in
    map rackGroup (racksMap st).

(* ================================================================== *)
(** * The run of the importer as a list of rows and of records *)
(* ================================================================== *)

(** A processed row: its line index [i], its fields and its room. *)
Definition ProcessedRow : Type := (nat * list string * string)%type.

Definition rowIndex (r : ProcessedRow) : nat := fst (fst r).
Definition rowFields (r : ProcessedRow) : list string := snd (fst r).
Definition rowRoom (r : ProcessedRow) : string := snd r.

(** The rows the loop of [rowsLoop] does not skip, in order, each with the
    room the loop body computes for it; [lastRoom] is threaded as the loop
    does. *)
Fixpoint processedRows (headers : list string) (cols : Columns)
    (lastRoom : string) (i : nat) (lines : list string) : list ProcessedRow :=
  match lines with
  | [] => []
  | line :: rest =>
      let row := parseLine line in
      if skipRow headers row then processedRows headers cols lastRoom (S i) rest
      else
        let '(room, lastRoom') := Fields.room cols row lastRoom in
        (i, row, room) :: processedRows headers cols lastRoom' (S i) rest
  end.

(** The records the inner loop creates for a processed row, in the order of
    the replica index [k]. *)
Definition rowDevices (cols : Columns) (r : ProcessedRow) : list Device :=
  map (newDevice cols (rowFields r) (rowRoom r) (rowIndex r))
    (seq 0 (Z.to_nat (Fields.qty cols (rowFields r)))).

(** The lines, headers and columns of an input, as [parseCSV] computes them. *)
Definition linesOf (csvText : string) : list string :=
  split newline (trim csvText).

Definition columnsOf (csvText : string) : Columns :=
  resolveColumns (headersOf (hd EmptyString (linesOf csvText))).

(** The processed rows of a whole import. *)
Definition importRows (csvText : string) : list ProcessedRow :=
  processedRows (headersOf (hd EmptyString (linesOf csvText)))
    (columnsOf csvText) DefaultRoom 1 (tl (linesOf csvText)).

(** Every record an import creates, in creation order: row by row, then
    replica by replica. *)
Definition createdDevices (csvText : string) : list Device :=
  flat_map (rowDevices (columnsOf csvText)) (importRows csvText).

(** Every record of the output, room by room. *)
Definition outputDevices (csvText : string) : list Device :=
  flat_map devices (parseCSV csvText).

(** Two records agree on every derived field; only [id] may differ. *)
Definition sameButId (d d' : Device) : Prop :=
  name d = name d' /\ room d = room d' /\ psuCount d = psuCount d' /\
  typicalPower d = typicalPower d' /\
  powerRatingPerDevice d = powerRatingPerDevice d' /\
  connectionType d = connectionType d' /\ uHeight d = uHeight d' /\
  uPosition d = uPosition d' /\ psuConnections d = psuConnections d'.

(** The distinct elements of a list in the order of their first
    occurrence. *)
Fixpoint firstSeen (l : list string) : list string :=
  match l with
  | [] => []
  | x :: r => x :: filter (fun y => negb (String.eqb y x)) (firstSeen r)
  end.

(** One record pushed under its own room. *)
Definition pushDevice (m : RacksMap) (d : Device) : RacksMap :=
  addDevice m (room d) d.

(** The position of the first occurrence of [x] in [l]; the length of [l]
    when there is none. *)
Fixpoint indexOf (x : string) (l : list string) : nat :=
  match l with
  | [] => 0
  | y :: r => if String.eqb y x then 0 else S (indexOf x r)
  end.

(** The records of one room, in creation order. *)
Definition inRoom (r : string) (ds : list Device) : list Device :=
  filter (fun d => String.eqb (room d) r) ds.

(** Grouping by room, first-seen room first. *)
Definition groupByRoom (ds : list Device) : RacksMap :=
  map (fun r => (r, inRoom r ds)) (firstSeen (map room ds)).

(** All characters of a string satisfy [p]. *)
Fixpoint allChars (p : ascii -> bool) (s : string) : bool :=
  match s with
  | EmptyString => true
  | String c r => p c && allChars p r
  end.

Definition notNewline (c : ascii) : bool := negb (Ascii.eqb c newline).
Definition notDash (c : ascii) : bool := negb (Ascii.eqb c dash).
Definition notWhiteSpace (c : ascii) : bool := negb (isWhiteSpace c).

(* ================================================================== *)
(** * The allocator's cursor *)
(* ================================================================== *)

(** The value of [currentU] after [devices] have gone through the [map]
    callback. *)
Fixpoint cursorAfter (currentU : Z) (devices : list Device) : Z :=
  match devices with
  | [] => currentU
  | d :: rest =>
      if (1 <=? currentU - uHeight d + 1)%Z
      then cursorAfter (currentU - uHeight d) rest
      else cursorAfter currentU rest
  end.

(** The units taken by the placed devices of a list. *)
Fixpoint placedUnits (devices : list Device) : Z :=
  match devices with
  | [] => 0
  | d :: rest =>
      match uPosition d with
      | Some _ => uHeight d + placedUnits rest
      | None => placedUnits rest
      end
  end%Z.

(** A device of a given height, for the examples. *)
Definition deviceOfHeight (h : Z) : Device := {|
  id := "d"; name := "d"; room := "r"; psuCount := 1;
  typicalPower := 0; powerRatingPerDevice := 0; connectionType := "C13";
  uHeight := h; uPosition := None; psuConnections := []
|}.

(* ================================================================== *)
(** * The rules as the specification words them *)
(* ================================================================== *)

(** Field splitting as specified: a quote toggles the inside-quotes state,
    a delimiter outside quotes ends the field, and every character that is
    not such a delimiter stays in its field. *)
Fixpoint specSplit (text : string) (field : string) (inQuotes : bool) : list string :=
  match text with
  | EmptyString => [field]
  | String c rest =>
      if Ascii.eqb c comma && negb inQuotes
      then field :: specSplit rest EmptyString inQuotes
      else specSplit rest (field ++ String c EmptyString)%string
             (if Ascii.eqb c dquote then negb inQuotes else inQuotes)
  end.

(** Field cleaning as specified: surrounding white space is trimmed, then
    one enclosing quote is stripped at each end, independently. *)
Definition specCleanField (field : string) : string := stripQuotes (trim field).

Definition specParseLine (text : string) : list string :=
  map specCleanField (specSplit text EmptyString false).

(** Every quote character of a field removed. *)
Fixpoint removeQuotes (s : string) : string :=
  match s with
  | EmptyString => EmptyString
  | String c r => if Ascii.eqb c dquote then removeQuotes r else String c (removeQuotes r)
  end.

(** The value of a column for a row as specified: present when the column
    was resolved and the cell parses to a number. *)
Definition columnNumber (idx : option nat) (row : list string) : option float :=
  match idx with
  | Some j =>
      let v := parseFloat (nth_error row j) in
      if is_nan v then None else Some v
  | None => None
  end.

(** Positive values only. *)
Definition positiveNumber (v : option float) : option float :=
  match v with
  | Some x => if (0 <? x)%float then Some x else None
  | None => None
  end.

(** Power derivation as specified: the first rule that applies wins. *)
Definition specMaxPower (cols : Columns) (row : list string) : float :=
  match positiveNumber (columnNumber (idxMaxPowerPerDevice cols) row) with
  | Some perDevice => perDevice
  | None =>
      match positiveNumber (columnNumber (idxTotalMaxPower cols) row) with
      | Some total => (total / numberOfZ (Fields.qty cols row))%float
      | None =>
          match columnNumber (idxPSURating cols) row with
          | Some rating => (rating * numberOfZ (Fields.psPerDevice cols row))%float
          | None => 0%float
          end
      end
  end.

(** The cleaned room cell of a row; empty when the row has no such cell. *)
Definition roomCell (j : nat) (row : list string) : string :=
  match nth_error row j with
  | Some val => trim (stripQuotes val)
  | None => EmptyString
  end.

Definition nonEmpty (s : string) : bool := negb (String.eqb s EmptyString).

(** Fill-down as specified: the room of the [n]-th processed row is the
    nearest non-empty room cell at or before it, and the default when there
    is none. *)
Definition nearestRoom (default : string) (cells : list string) (n : nat) : string :=
  last (filter nonEmpty (firstn (S n) cells)) default.

Definition notQuote (c : ascii) : bool := negb (Ascii.eqb c dquote).

(** Concrete inputs. *)
Definition nl : string := String newline EmptyString.
Definition quote : string := String dquote EmptyString.

(** A field with a quote in its middle, and a field in two pairs of quotes. *)
Definition strayQuoteLine : string := ("x" ++ quote ++ "y")%string.
Definition doubledQuoteLine : string := (quote ++ quote ++ "x" ++ quote ++ quote)%string.

(** A header row alone, and white space only. *)
Definition headerOnly : string := ("Room,Device,Qty" ++ nl)%string.
Definition blankInput : string := ("  " ++ nl ++ " " ++ nl)%string.

(** A room whose second device is taller than what is left of the rack. *)
Definition overflowInput : string :=
  ("Device,Height,Max Power" ++ nl ++ "A,48,100" ++ nl ++ "B,2,50")%string.

(** A per-device max power of 300 W next to a total of 1000 W for 2 units. *)
Definition bothPowersInput : string :=
  ("Device,Qty,Max Power (Watt),Total Power" ++ nl ++ "X,2,300,1000")%string.

(** A negative power-supply rating. *)
Definition negativeRatingInput : string :=
  ("Device,PSU Rating" ++ nl ++ "X,-5")%string.

(** A negative typical-power cell. *)
Definition negativeTypicalInput : string :=
  ("Device,Typical Power" ++ nl ++ "X,-10")%string.

(** A blank line between two data lines, under a header of two fields. *)
Definition blankLineInput : string :=
  ("Room,Device" ++ nl ++ "R1,srv" ++ nl ++ nl ++ "R2,x")%string.

(* ================================================================== *)
(** * Further notions for the importer *)
(* ================================================================== *)

(** The test of [getColIndex] on one header. *)
Definition headerMatches (keywords : list string) (h : string) : bool :=
  existsb (fun k => includes (toLowerCase h) (toLowerCase k)) keywords.

(** A string that does not start with white space. *)
Definition headClean (s : string) : Prop :=
  match s with
  | String c _ => isWhiteSpace c = false
  | EmptyString => True
  end.

(** The commas of a line that stand outside quotes. *)
Fixpoint unquotedCommas (text : string) (inQuotes : bool) : nat :=
  match text with
  | EmptyString => 0
  | String c rest =>
      if Ascii.eqb c dquote then unquotedCommas rest (negb inQuotes)
      else if Ascii.eqb c comma && negb inQuotes then S (unquotedCommas rest inQuotes)
      else unquotedCommas rest inQuotes
  end.

Definition notComma (c : ascii) : bool := negb (Ascii.eqb c comma).

(** A field written between quotes, and fields written as one line. *)
Definition quoteField (field : string) : string := (quote ++ field ++ quote)%string.

Definition joinFields (fields : list string) : string := String.concat "," fields.

(** A device that has a position. *)
Definition isPlaced (d : Device) : bool :=
  match uPosition d with
  | Some _ => true
  | None => false
  end.

(** The rack units of all the devices of a list. *)
Fixpoint totalUnits (devices : list Device) : Z :=
  match devices with
  | [] => 0
  | d :: rest => uHeight d + totalUnits rest
  end%Z.

(** A placed device lies within the units 1..[ceiling]. *)
Definition withinRack (ceiling : Z) (d : Device) : Prop :=
  match uPosition d with
  | Some pos => (1 <= pos - uHeight d + 1)%Z /\ (pos <= ceiling)%Z
  | None => True
  end.

(** A later placed device lies wholly below an earlier one. *)
Definition liesBelow (d1 d2 : Device) : Prop :=
  match uPosition d1, uPosition d2 with
  | Some pos1, Some pos2 => (pos2 < pos1 - uHeight d1 + 1)%Z
  | _, _ => True
  end.

(* ================================================================== *)
(** * The rack view: [src/components/RackVisualizer.tsx] *)
(* ================================================================== *)

(** Line 19. *)
Definition U_HEIGHT_PX : Z := 30.

(** [occupationMap]: a [Map<number, Device>], read with [get] only. *)
Definition OccupationMap : Type := list (Z * Device).

(** [m.set(u, d)]: the value of an existing key is replaced, a new key is
    added. *)
Fixpoint occSet (m : OccupationMap) (u : Z) (d : Device) : OccupationMap :=
  match m with
  | [] => [(u, d)]
  | (k, d') :: rest =>
      if (k =? u)%Z then (k, d) :: rest else (k, d') :: occSet rest u d
  end.

(** [m.get(u)], [None] for [undefined]. *)
Fixpoint occGet (m : OccupationMap) (u : Z) : option Device :=
  match m with
  | [] => None
  | (k, d) :: rest => if (k =? u)%Z then Some d else occGet rest u
  end.

(** Lines 227-231: the callback of [devices.forEach]; a position that is
    [null] or 0 is falsy. *)
Definition occupy (m : OccupationMap) (d : Device) : OccupationMap :=
  match uPosition d with
  | Some pos =>
      if (pos =? 0)%Z then m
      else fold_left (fun m i => occSet m (pos - Z.of_nat i)%Z d)
             (seq 0 (Z.to_nat (uHeight d))) m
  | None => m
  end.

(** Lines 225-232. *)
Definition occupationMap (devices : list Device) : OccupationMap :=
  fold_left occupy devices [].

(** What [renderRack] pushes: the slot of a device, with its key unit and
    its height in pixels, or an empty unit. *)
Inductive Slot : Type :=
| DeviceSlot (u : Z) (device : Device) (heightPx : Z)
| EmptySlot (u : Z).

(** [device.uPosition === u] *)
Definition positionIs (d : Device) (u : Z) : bool :=
  match uPosition d with
  | Some pos => (pos =? u)%Z
  | None => false
  end.

(** Lines 388-466: the loop [for (let u = rackSize; u >= 1; u--)], whose
    body moves [u] past a device; [fuel] bounds the number of iterations
    and [None] tells that it ran out. *)
Fixpoint renderRack_loop (fuel : nat) (occ : OccupationMap) (u : Z)
    (slots : list Slot) : option (list Slot) :=
  if (1 <=? u)%Z then
    match fuel with
    | O => None
    | S fuel' =>
        match occGet occ u with
        | Some device =>
            if positionIs device u
            then renderRack_loop fuel' occ (u - uHeight device + 1 - 1)%Z
                   (slots ++ [DeviceSlot u device (uHeight device * U_HEIGHT_PX)%Z])
            else renderRack_loop fuel' occ (u - 1)%Z slots
        | None => renderRack_loop fuel' occ (u - 1)%Z (slots ++ [EmptySlot u])
        end
    end
  else Some slots.

(** Lines 386-468, with one iteration allowed per rack unit. *)
Definition renderRack (rackSize : Z) (devices : list Device) : option (list Slot) :=
  renderRack_loop (Z.to_nat rackSize) (occupationMap devices) rackSize [].

(** A device covers unit [u] in the occupation map. *)
Definition covers (d : Device) (u : Z) : bool :=
  match uPosition d with
  | Some pos => negb (pos =? 0)%Z && (pos - uHeight d <? u)%Z && (u <=? pos)%Z
  | None => false
  end.

(** The last device of a list that covers [u]. *)
Fixpoint lastCovering (devices : list Device) (u : Z) : option Device :=
  match devices with
  | [] => None
  | d :: rest =>
      match lastCovering rest u with
      | Some d' => Some d'
      | None => if covers d u then Some d else None
      end
  end.

(** The units [n], [n-1], ..., 1. *)
Fixpoint downFrom (n : nat) : list Z :=
  match n with
  | O => []
  | S n' => Z.of_nat n :: downFrom n'
  end.

(** The slot [renderRack] draws for a placed device. *)
Definition slotsOf (devices : list Device) : list Slot :=
  flat_map (fun d => match uPosition d with
                     | Some pos => [DeviceSlot pos d (uHeight d * U_HEIGHT_PX)%Z]
                     | None => []
                     end) devices.

(** The height of a slot in rack units. *)
Definition slotUnits (s : Slot) : Z :=
  match s with
  | DeviceSlot _ d _ => uHeight d
  | EmptySlot _ => 1
  end.

(** The rack units a list of slots takes up. *)
Fixpoint unitsOf (slots : list Slot) : Z :=
  match slots with
  | [] => 0
  | s :: rest => slotUnits s + unitsOf rest
  end%Z.

(** A connection to socket [index] of the PDU. *)
Definition pluggedInto (pdu : string) (index : nat) (slot : nat * option PSUConnection)
    : bool :=
  match snd slot with
  | Some conn => String.eqb (pduId conn) pdu && (socketIndex conn =? index)%nat
  | None => false
  end.

(** Lines 471-486 of [renderSocket]: the power supply of [d] plugged into
    socket [index] of the PDU, the last one when several are. *)
Definition matchingPsu (d : Device) (pdu : string) (index : nat) : option nat :=
  fold_left
    (fun found entry =>
       match snd entry with
       | Some conn =>
           if String.eqb (pduId conn) pdu && (socketIndex conn =? index)%nat
           then Some (fst entry) else found
       | None => found
       end)
    (psuConnections d) None.

(** The loop [for (const d of devices)] with its [break]. *)
Fixpoint connectedDevice (devices : list Device) (pdu : string) (index : nat)
    : option (Device * nat) :=
  match devices with
  | [] => None
  | d :: rest =>
      match matchingPsu d pdu index with
      | Some psu => Some (d, psu)
      | None => connectedDevice rest pdu index
      end
  end.

(** Line 122. *)
Definition unmountedDevices (devices : list Device) : list Device :=
  filter (fun d => negb (isPlaced d)) devices.

(* ================================================================== *)
(** * Strings *)
(* ================================================================== *)

Section StringFacts.

Lemma append_nil_r (s : string) : (s ++ EmptyString)%string = s.
Proof. induction s as [|c s IH]; simpl; [reflexivity | now rewrite IH]. Qed.

Lemma append_assoc (s t u : string) :
  ((s ++ t) ++ u)%string = (s ++ (t ++ u))%string.
Proof. induction s as [|c s IH]; simpl; [reflexivity | now rewrite IH]. Qed.

Lemma allChars_append (p : ascii -> bool) (s t : string) :
  allChars p (s ++ t) = allChars p s && allChars p t.
Proof.
  induction s as [|c s IH]; simpl; [reflexivity|].
  now rewrite IH, andb_assoc.
Qed.

Lemma allChars_impl (p q : ascii -> bool) (s : string) :
  (forall c, p c = true -> q c = true) ->
  allChars p s = true -> allChars q s = true.
Proof.
  intros Hpq. induction s as [|c s IH]; simpl; [reflexivity|].
  intros [Hc Hs]%andb_prop. now rewrite (Hpq _ Hc), IH.
Qed.

Lemma removeQuotes_append (s t : string) :
  removeQuotes (s ++ t) = (removeQuotes s ++ removeQuotes t)%string.
Proof.
  induction s as [|c s IH]; simpl; [reflexivity|].
  destruct (Ascii.eqb c dquote); simpl; now rewrite IH.
Qed.

(** White space only trims to nothing. *)
Lemma trimStart_blank (s : string) :
  allChars isWhiteSpace s = true -> trimStart s = EmptyString.
Proof.
  induction s as [|c s IH]; simpl; [reflexivity|].
  intros [Hc Hs]%andb_prop. rewrite Hc. now apply IH.
Qed.

Lemma trim_blank (s : string) :
  allChars isWhiteSpace s = true -> trim s = EmptyString.
Proof. intros H. unfold trim. now rewrite trimStart_blank. Qed.

(** A run-collapsing replacement leaves text without white space alone. *)
Lemma replaceRuns_clean (b : bool) (t : string) :
  allChars notWhiteSpace t = true -> replaceRuns b t = t.
Proof.
  revert b. induction t as [|c t IH]; intros b; simpl; [reflexivity|].
  unfold notWhiteSpace at 1. intros [Hc Ht]%andb_prop.
  apply negb_true_iff in Hc. rewrite Hc. now rewrite IH.
Qed.

Lemma replaceRuns_append (b : bool) (s t : string) :
  allChars notWhiteSpace t = true ->
  replaceRuns b (s ++ t) = (replaceRuns b s ++ t)%string.
Proof.
  intros Ht. revert b. induction s as [|c s IH]; intros b; simpl.
  - now apply replaceRuns_clean.
  - destruct (isWhiteSpace c); [destruct b|]; simpl; now rewrite IH.
Qed.

Lemma allChars_notDash_dash (y b : string) :
  allChars notDash (y ++ String dash b) = false.
Proof.
  rewrite allChars_append. apply andb_false_iff. right. reflexivity.
Qed.

(** What follows the last dash of a string determines the split. *)
Lemma last_dash_inj (x y a b : string) :
  allChars notDash a = true -> allChars notDash b = true ->
  (x ++ String dash a)%string = (y ++ String dash b)%string ->
  x = y /\ a = b.
Proof.
  intros Ha Hb. revert y.
  induction x as [|c x IH]; intros [|d y]; simpl; intros H.
  - now inversion H.
  - inversion H as [[Hd Hy]]. subst a.
    now rewrite allChars_notDash_dash in Ha.
  - inversion H as [[Hd Hy]]. subst b.
    now rewrite allChars_notDash_dash in Hb.
  - inversion H as [[Hc Hxy]]. destruct (IH _ Hxy) as [-> ->]. now split.
Qed.

End StringFacts.

(* ================================================================== *)
(** * Record identifiers *)
(* ================================================================== *)

Section Identifiers.

Lemma isDigit_notDash (c : ascii) : isDigit c = true -> notDash c = true.
Proof.
  destruct c as [[] [] [] [] [] [] [] []]; intros H;
    try reflexivity; discriminate H.
Qed.

Lemma isDigit_notWhiteSpace (c : ascii) :
  isDigit c = true -> notWhiteSpace c = true.
Proof.
  destruct c as [[] [] [] [] [] [] [] []]; intros H;
    try reflexivity; discriminate H.
Qed.

Lemma string_of_uint_digits (d : Decimal.uint) :
  allChars isDigit (NilEmpty.string_of_uint d) = true.
Proof. induction d; simpl; auto. Qed.

Lemma numberToString_digits (n : nat) :
  allChars isDigit (numberToString n) = true.
Proof.
  unfold numberToString, NilZero.string_of_uint.
  destruct (Nat.to_uint n); try reflexivity; apply string_of_uint_digits.
Qed.

Lemma to_uint_nonnil (n : nat) : Nat.to_uint n <> Decimal.Nil.
Proof.
  rewrite <- (DecimalNat.Unsigned.of_to n) at 1.
  rewrite DecimalNat.Unsigned.to_of. apply DecimalFacts.unorm_nonnil.
Qed.

Lemma numberToString_inj (n m : nat) :
  numberToString n = numberToString m -> n = m.
Proof.
  unfold numberToString. intros H.
  apply DecimalNat.Unsigned.to_uint_inj.
  assert (Hn := NilZero.usu _ (to_uint_nonnil n)).
  assert (Hm := NilZero.usu _ (to_uint_nonnil m)).
  rewrite H in Hn. rewrite Hn in Hm. now inversion Hm.
Qed.

(** The tail [-i-k] of an id survives the white-space replacement. *)
Lemma deviceId_tail (room deviceName : string) (i k : nat) :
  deviceId room deviceName i k =
  ((replaceWhiteSpace (room ++ "-" ++ deviceName)
      ++ String dash (numberToString i))
     ++ String dash (numberToString k))%string.
Proof.
  unfold deviceId, replaceWhiteSpace.
  change ("-" ++ numberToString i ++ "-" ++ numberToString k)%string
    with (String dash (numberToString i ++ String dash (numberToString k)))%string.
  replace (room ++ "-" ++ deviceName
             ++ String dash (numberToString i ++ String dash (numberToString k)))%string
    with ((room ++ "-" ++ deviceName)
            ++ String dash (numberToString i ++ String dash (numberToString k)))%string
    by (change ("-" ++ deviceName)%string with (String dash deviceName);
        rewrite append_assoc; reflexivity).
  rewrite replaceRuns_append.
  - rewrite append_assoc. reflexivity.
  - simpl. rewrite allChars_append. simpl.
    rewrite !(allChars_impl _ _ _ isDigit_notWhiteSpace (numberToString_digits _)).
    reflexivity.
Qed.

(** The id determines the line index and the replica index. *)
Lemma deviceId_inj (room room' deviceName deviceName' : string) (i i' k k' : nat) :
  deviceId room deviceName i k = deviceId room' deviceName' i' k' ->
  i = i' /\ k = k'.
Proof.
  rewrite !deviceId_tail. intros H.
  apply last_dash_inj in H as [H Hk];
    try (apply (allChars_impl _ _ _ isDigit_notDash), numberToString_digits).
  apply last_dash_inj in H as [_ Hi];
    try (apply (allChars_impl _ _ _ isDigit_notDash), numberToString_digits).
  split; now apply numberToString_inj.
Qed.

End Identifiers.

(* ================================================================== *)
(** * Field splitting *)
(* ================================================================== *)

Section FieldSplitting.

(** The loop of [parseLine] against the specified split: the cell under
    construction is the current field without its quotes. *)
Lemma parseLine_loop_split (text : string) :
  forall (result : list string) (field : string) (inQuotes : bool),
    parseLine_loop text result (removeQuotes field) inQuotes =
    result ++ map (fun f => trim (removeQuotes f)) (specSplit text field inQuotes).
Proof.
  induction text as [|c rest IH]; intros result field inQuotes; simpl.
  - reflexivity.
  - destruct (Ascii.eqb c dquote) eqn:Hq.
    + apply Ascii.eqb_eq in Hq. subst c. simpl.
      rewrite <- IH. f_equal.
      rewrite removeQuotes_append. simpl. now rewrite append_nil_r.
    + destruct (Ascii.eqb c comma && negb inQuotes) eqn:Hc.
      * change EmptyString with (removeQuotes EmptyString) at 1.
        rewrite IH. simpl. now rewrite <- app_assoc.
      * rewrite <- IH. f_equal.
        rewrite removeQuotes_append. simpl. now rewrite Hq.
Qed.

Lemma specSplit_nonempty (text field : string) (inQuotes : bool) :
  specSplit text field inQuotes <> [].
Proof.
  revert field inQuotes. induction text as [|c rest IH]; intros field inQuotes; simpl.
  - discriminate.
  - destruct (Ascii.eqb c comma && negb inQuotes); [discriminate | apply IH].
Qed.

Lemma parseLine_split (text : string) :
  parseLine text =
  map (fun f => trim (removeQuotes f)) (specSplit text EmptyString false).
Proof.
  unfold parseLine.
  change EmptyString with (removeQuotes EmptyString) at 1.
  now rewrite parseLine_loop_split.
Qed.

Lemma parseLine_nonempty (text : string) : (1 <= List.length (parseLine text))%nat.
Proof.
  rewrite parseLine_split, length_map.
  destruct (specSplit text EmptyString false) eqn:E; simpl; [|lia].
  now apply specSplit_nonempty in E.
Qed.

(** A field of white space: the line splits into one empty field. *)
Lemma specSplit_blank (text field : string) :
  allChars isWhiteSpace text = true ->
  specSplit text field false = [(field ++ text)%string].
Proof.
  revert field. induction text as [|c rest IH]; intros field; simpl.
  - now rewrite append_nil_r.
  - intros [Hc Hr]%andb_prop.
    assert (Ascii.eqb c comma = false) as ->
      by (destruct (Ascii.eqb_spec c comma) as [->|]; [discriminate Hc | reflexivity]).
    assert (Ascii.eqb c dquote = false) as ->
      by (destruct (Ascii.eqb_spec c dquote) as [->|]; [discriminate Hc | reflexivity]).
    simpl. rewrite IH by assumption. now rewrite append_assoc.
Qed.

Lemma removeQuotes_blank (text : string) :
  allChars isWhiteSpace text = true -> removeQuotes text = text.
Proof.
  induction text as [|c rest IH]; simpl; [reflexivity|].
  intros [Hc Hr]%andb_prop.
  assert (Ascii.eqb c dquote = false) as ->
    by (destruct (Ascii.eqb_spec c dquote) as [->|]; [discriminate Hc | reflexivity]).
  now rewrite IH.
Qed.

Lemma parseLine_blank (text : string) :
  allChars isWhiteSpace text = true -> parseLine text = [EmptyString].
Proof.
  intros H. rewrite parseLine_split, specSplit_blank by assumption. simpl.
  now rewrite removeQuotes_blank, trim_blank.
Qed.

End FieldSplitting.

(* ================================================================== *)
(** * Grouping by room *)
(* ================================================================== *)

Section Grouping.

Lemma firstSeen_In (x : string) (l : list string) :
  In x (firstSeen l) <-> In x l.
Proof.
  induction l as [|a l IH]; simpl; [tauto|].
  rewrite filter_In, IH, negb_true_iff, String.eqb_neq.
  destruct (String.eqb_spec a x); intuition congruence.
Qed.

Lemma firstSeen_NoDup (l : list string) : NoDup (firstSeen l).
Proof.
  induction l as [|a l IH]; simpl; constructor.
  - rewrite filter_In, String.eqb_refl. intros [_ H]. discriminate H.
  - now apply NoDup_filter.
Qed.

Lemma firstSeen_snoc (l : list string) (x : string) :
  firstSeen (l ++ [x]) =
  if existsb (String.eqb x) l then firstSeen l else firstSeen l ++ [x].
Proof.
  induction l as [|a l IH]; simpl; [reflexivity|].
  rewrite IH. destruct (String.eqb_spec x a) as [->|Hxa]; simpl.
  - destruct (existsb (String.eqb a) l); [reflexivity|].
    rewrite filter_app. simpl. rewrite String.eqb_refl. simpl.
    now rewrite app_nil_r.
  - destruct (existsb (String.eqb x) l); [reflexivity|].
    rewrite filter_app. simpl.
    destruct (String.eqb_spec x a); [contradiction|reflexivity].
Qed.

Lemma firstSeen_twice (x : string) (l : list string) :
  firstSeen (x :: x :: l) = firstSeen (x :: l).
Proof.
  simpl. rewrite String.eqb_refl. simpl. f_equal.
  induction (firstSeen l) as [|a k IH]; simpl; [reflexivity|].
  destruct (negb (String.eqb a x)) eqn:E; simpl; [rewrite E|]; now rewrite IH.
Qed.

Lemma firstSeen_repeat (x : string) (n : nat) (l : list string) :
  firstSeen (repeat x (S n) ++ l) = firstSeen (x :: l).
Proof.
  induction n as [|n IH]; [reflexivity|].
  change (repeat x (S (S n)) ++ l) with (x :: x :: (repeat x n ++ l)).
  rewrite firstSeen_twice. exact IH.
Qed.

Lemma existsb_eqb_In (x : string) (l : list string) :
  existsb (String.eqb x) l = true <-> In x l.
Proof.
  rewrite existsb_exists. split.
  - intros [y [Hy ->%String.eqb_eq]]. exact Hy.
  - intros H. exists x. split; [exact H | apply String.eqb_refl].
Qed.

Lemma existsb_firstSeen (x : string) (l : list string) :
  existsb (String.eqb x) (firstSeen l) = existsb (String.eqb x) l.
Proof.
  apply eq_true_iff_eq. now rewrite !existsb_eqb_In, firstSeen_In.
Qed.

Lemma inRoom_snoc (r : string) (ds : list Device) (d : Device) :
  inRoom r (ds ++ [d]) = inRoom r ds ++ (if String.eqb (room d) r then [d] else []).
Proof. unfold inRoom. rewrite filter_app. reflexivity. Qed.

Lemma inRoom_absent (r : string) (ds : list Device) :
  ~ In r (map room ds) -> inRoom r ds = [].
Proof.
  intros H. induction ds as [|d ds IH]; [reflexivity|]. simpl in *.
  destruct (String.eqb_spec (room d) r); [tauto|]. apply IH. tauto.
Qed.

(** The map operations on a map given key by key. *)
Lemma mapHas_keys (f : string -> list Device) (ks : list string) (x : string) :
  mapHas (map (fun r => (r, f r)) ks) x = existsb (String.eqb x) ks.
Proof.
  induction ks as [|k ks IH]; simpl; [reflexivity|].
  now rewrite IH, String.eqb_sym.
Qed.

Lemma mapPush_keys (f : string -> list Device) (ks : list string) (x : string)
    (d : Device) :
  NoDup ks ->
  mapPush (map (fun r => (r, f r)) ks) x d =
  map (fun r => (r, f r ++ (if String.eqb x r then [d] else []))) ks.
Proof.
  induction 1 as [|k ks Hk Hks IH]; simpl; [reflexivity|].
  rewrite (String.eqb_sym x k).
  destruct (String.eqb_spec k x) as [->|Hkx].
  - f_equal. apply map_ext_in. intros r Hr.
    destruct (String.eqb_spec x r) as [->|]; [contradiction|].
    now rewrite app_nil_r.
  - now rewrite app_nil_r, IH.
Qed.

Lemma mapSet_fresh (m : RacksMap) (x : string) (v : list Device) :
  mapHas m x = false -> mapSet m x v = m ++ [(x, v)].
Proof.
  induction m as [|[k ds] m IH]; simpl; [reflexivity|].
  intros [Hk Hm]%orb_false_elim. rewrite Hk. now rewrite IH.
Qed.

Lemma mapPush_fresh (m : RacksMap) (x : string) (v : list Device) (d : Device) :
  mapHas m x = false -> mapPush (m ++ [(x, v)]) x d = m ++ [(x, v ++ [d])].
Proof.
  induction m as [|[k ds] m IH]; simpl.
  - now rewrite String.eqb_refl.
  - intros [Hk Hm]%orb_false_elim. rewrite Hk. now rewrite IH.
Qed.

(** Pushing one more record on the grouped map groups one more record. *)
Lemma addDevice_groupByRoom (ds : list Device) (d : Device) :
  addDevice (groupByRoom ds) (room d) d = groupByRoom (ds ++ [d]).
Proof.
  unfold addDevice, groupByRoom.
  rewrite map_app. change (map room [d]) with [room d].
  rewrite firstSeen_snoc, mapHas_keys, existsb_firstSeen.
  destruct (existsb (String.eqb (room d)) (map room ds)) eqn:E.
  - rewrite (mapPush_keys (fun r => inRoom r ds)) by apply firstSeen_NoDup.
    apply map_ext. intros r. now rewrite inRoom_snoc.
  - assert (Hno : ~ In (room d) (map room ds)).
    { intros Hin%existsb_eqb_In. congruence. }
    rewrite mapSet_fresh by (now rewrite mapHas_keys, existsb_firstSeen).
    rewrite mapPush_fresh by (now rewrite mapHas_keys, existsb_firstSeen).
    rewrite map_app. simpl. f_equal.
    + apply map_ext_in. intros r Hr. rewrite inRoom_snoc.
      destruct (String.eqb_spec (room d) r) as [<-|]; [|now rewrite app_nil_r].
      apply (proj1 (firstSeen_In _ _)) in Hr. contradiction.
    + rewrite inRoom_snoc, String.eqb_refl, inRoom_absent by assumption.
      reflexivity.
Qed.

Lemma pushAll_groupByRoom (ds : list Device) :
  fold_left pushDevice ds [] = groupByRoom ds.
Proof.
  induction ds as [|d ds IH] using rev_ind; [reflexivity|].
  rewrite fold_left_app. simpl. rewrite IH. apply addDevice_groupByRoom.
Qed.

(** The groups hold every record once. *)
Lemma flat_map_insert (f : string -> list Device) (x : string) (d : Device)
    (ks : list string) :
  NoDup ks -> In x ks ->
  Permutation
    (flat_map (fun r => if String.eqb x r then d :: f r else f r) ks)
    (d :: flat_map f ks).
Proof.
  induction 1 as [|k ks Hk Hks IH]; simpl; [tauto|].
  intros [->|Hin].
  - rewrite String.eqb_refl. simpl. constructor.
    assert (E : flat_map (fun r => if String.eqb x r then d :: f r else f r) ks
                = flat_map f ks).
    { clear IH Hks. induction ks as [|a ks IHks]; simpl; [reflexivity|].
      destruct (String.eqb_spec x a) as [->|]; [simpl in Hk; tauto|].
      rewrite IHks; [reflexivity|]. simpl in Hk. tauto. }
    now rewrite E.
  - destruct (String.eqb_spec x k) as [->|]; [contradiction|].
    rewrite (IH Hin). apply Permutation_sym, Permutation_middle.
Qed.

Lemma groups_Permutation (ds : list Device) (ks : list string) :
  NoDup ks -> (forall d, In d ds -> In (room d) ks) ->
  Permutation (flat_map (fun r => inRoom r ds) ks) ds.
Proof.
  intros Hks. induction ds as [|d ds IH]; intros Hin.
  - simpl. clear. induction ks as [|k ks IHk]; simpl; [constructor | exact IHk].
  - assert (E : flat_map (fun r => inRoom r (d :: ds)) ks =
                flat_map (fun r => if String.eqb (room d) r
                                   then d :: inRoom r ds else inRoom r ds) ks).
    { apply flat_map_ext. intros r. unfold inRoom. simpl.
      now destruct (String.eqb (room d) r). }
    rewrite E, flat_map_insert by (assumption || (apply Hin; now left)).
    constructor. apply IH. intros d' Hd'. apply Hin. now right.
Qed.

End Grouping.

(* ================================================================== *)
(** * The loop over the lines *)
(* ================================================================== *)

Section ImportLoop.

Variable headers : list string.
Variable cols : Columns.

Lemma addReplicas_push (row : list string) (r : string) (i : nat) (m : RacksMap) :
  addReplicas cols row r i m = fold_left pushDevice (rowDevices cols (i, row, r)) m.
Proof.
  unfold addReplicas, rowDevices, rowFields, rowRoom, rowIndex. simpl.
  generalize (seq 0 (Z.to_nat (Fields.qty cols row))). intros ks. revert m.
  induction ks as [|k ks IH]; intros m; simpl; [reflexivity | apply IH].
Qed.

(** The loop pushes the records of the processed rows, in order. *)
Lemma rowsLoop_racksMap (lines : list string) :
  forall (st : LoopState) (i : nat),
    racksMap (rowsLoop headers cols st i lines) =
    fold_left pushDevice
      (flat_map (rowDevices cols)
         (processedRows headers cols (lastRoom st) i lines))
      (racksMap st).
Proof.
  induction lines as [|line rest IH]; intros st i; simpl; [reflexivity|].
  rewrite IH. unfold processRow.
  destruct (skipRow headers (parseLine line)); [reflexivity|].
  destruct (Fields.room cols (parseLine line) (lastRoom st)) as [r lastRoom'].
  simpl. now rewrite fold_left_app, addReplicas_push.
Qed.

(** Line indices grow along the processed rows. *)
Lemma processedRows_index (lines : list string) :
  forall (lastRoom0 : string) (i : nat) (r : ProcessedRow),
    In r (processedRows headers cols lastRoom0 i lines) -> (i <= rowIndex r)%nat.
Proof.
  induction lines as [|line rest IH]; intros lastRoom0 i r; simpl; [tauto|].
  destruct (skipRow headers (parseLine line)).
  - intros H%IH. lia.
  - destruct (Fields.room cols (parseLine line) lastRoom0) as [rm lastRoom'].
    intros [<-|H%IH]; [reflexivity | lia].
Qed.

Lemma rowDevices_id (r : ProcessedRow) (d : Device) :
  In d (rowDevices cols r) ->
  exists k, id d = deviceId (room d) (name d) (rowIndex r) k.
Proof.
  unfold rowDevices. intros [k [<- _]]%in_map_iff. now exists k.
Qed.

Lemma rowDevices_NoDup (r : ProcessedRow) : NoDup (map id (rowDevices cols r)).
Proof.
  unfold rowDevices. rewrite map_map.
  generalize (seq_NoDup (Z.to_nat (Fields.qty cols (rowFields r))) 0).
  generalize (seq 0 (Z.to_nat (Fields.qty cols (rowFields r)))). intros ks.
  induction 1 as [|k ks Hk Hks IH]; simpl; constructor; [|exact IH].
  intros [k' [E Hk']]%in_map_iff. simpl in E.
  apply deviceId_inj in E as [_ ->]. contradiction.
Qed.

(** No two records of a run share an id. *)
Lemma processedRows_ids_NoDup (lines : list string) :
  forall (lastRoom0 : string) (i : nat),
    NoDup (map id (flat_map (rowDevices cols)
                     (processedRows headers cols lastRoom0 i lines))).
Proof.
  induction lines as [|line rest IH]; intros lastRoom0 i; simpl; [constructor|].
  destruct (skipRow headers (parseLine line)); [apply IH|].
  destruct (Fields.room cols (parseLine line) lastRoom0) as [rm lastRoom'].
  simpl. rewrite map_app. apply NoDup_app.
  - apply rowDevices_NoDup.
  - apply IH.
  - intros s [d [<- Hd]]%in_map_iff [d' [E Hd']]%in_map_iff.
    apply rowDevices_id in Hd as [k Hk].
    apply in_flat_map in Hd' as [r' [Hr' Hd']].
    apply rowDevices_id in Hd' as [k' Hk'].
    apply processedRows_index in Hr'.
    rewrite Hk, Hk' in E. apply deviceId_inj in E as [E _].
    unfold rowIndex in E at 2. simpl in E. lia.
Qed.

(** Every row that is processed yields at least one record. *)
Lemma positiveIntOr_pos (row : list string) (idx : option nat) (default : Z) :
  (0 < default)%Z -> (0 < Fields.positiveIntOr row idx default)%Z.
Proof.
  intros Hd. unfold Fields.positiveIntOr.
  destruct idx as [j|]; [|exact Hd].
  destruct (parseInt (nth_error row j)) as [parsed|]; [|exact Hd].
  destruct (Z.ltb_spec 0 parsed); assumption.
Qed.

Lemma qty_pos (row : list string) : (0 < Fields.qty cols row)%Z.
Proof. apply positiveIntOr_pos. lia. Qed.

Lemma rowDevices_rooms (r : ProcessedRow) :
  map room (rowDevices cols r) =
  repeat (rowRoom r) (Z.to_nat (Fields.qty cols (rowFields r))).
Proof.
  unfold rowDevices. rewrite map_map. simpl.
  generalize 0%nat. induction (Z.to_nat (Fields.qty cols (rowFields r))) as [|n IH];
    intros s; simpl; [reflexivity | now rewrite IH].
Qed.

Lemma firstSeen_rows (rows : list ProcessedRow) :
  firstSeen (map room (flat_map (rowDevices cols) rows)) =
  firstSeen (map rowRoom rows).
Proof.
  induction rows as [|r rows IH]; [reflexivity|].
  simpl flat_map. rewrite map_app, rowDevices_rooms.
  destruct (Z.to_nat (Fields.qty cols (rowFields r))) as [|n] eqn:E.
  - pose proof (qty_pos (rowFields r)). lia.
  - rewrite firstSeen_repeat. simpl. now rewrite IH.
Qed.

End ImportLoop.

(* ================================================================== *)
(** * The allocator *)
(* ================================================================== *)

Section Allocator.

Lemma positionDevices_app (pre post : list Device) :
  forall currentU : Z,
    positionDevices currentU (pre ++ post) =
    positionDevices currentU pre ++ positionDevices (cursorAfter currentU pre) post.
Proof.
  induction pre as [|d pre IH]; intros currentU; simpl; [reflexivity|].
  destruct (1 <=? currentU - uHeight d + 1)%Z; simpl; now rewrite IH.
Qed.

Lemma cursorAfter_placedUnits (ds : list Device) :
  forall currentU : Z,
    cursorAfter currentU ds = (currentU - placedUnits (positionDevices currentU ds))%Z.
Proof.
  induction ds as [|d ds IH]; intros currentU; simpl; [lia|].
  destruct (1 <=? currentU - uHeight d + 1)%Z; simpl; rewrite IH; lia.
Qed.

(** Placement changes the position and the connection slots only. *)
Lemma positionDevices_unplaced (ds : list Device) :
  forall currentU : Z,
    map unplaced (positionDevices currentU ds) = map unplaced ds.
Proof.
  induction ds as [|d ds IH]; intros currentU; simpl; [reflexivity|].
  destruct (1 <=? currentU - uHeight d + 1)%Z; simpl; now rewrite IH.
Qed.

Lemma positionDevices_power (ds : list Device) :
  forall currentU : Z,
    map powerRatingPerDevice (positionDevices currentU ds) =
    map powerRatingPerDevice ds.
Proof.
  induction ds as [|d ds IH]; intros currentU; simpl; [reflexivity|].
  destruct (1 <=? currentU - uHeight d + 1)%Z; simpl; now rewrite IH.
Qed.

Lemma positionDevices_id (ds : list Device) :
  forall currentU : Z, map id (positionDevices currentU ds) = map id ds.
Proof.
  induction ds as [|d ds IH]; intros currentU; simpl; [reflexivity|].
  destruct (1 <=? currentU - uHeight d + 1)%Z; simpl; now rewrite IH.
Qed.

Lemma sumPower_map (ds ds' : list Device) :
  map powerRatingPerDevice ds = map powerRatingPerDevice ds' ->
  sumPower ds = sumPower ds'.
Proof.
  unfold sumPower. generalize 0%float. revert ds'.
  induction ds as [|d ds IH]; intros [|d' ds'] acc H; simpl in *;
    try discriminate; [reflexivity|].
  inversion H as [[Hd Hds]]. rewrite Hd. now apply IH.
Qed.

End Allocator.

(* ================================================================== *)
(** * The whole import *)
(* ================================================================== *)

Section WholeImport.

(** The output is the grouping of the created records, each group placed in
    a rack of 48 units. *)
Lemma parseCSV_groups (csvText : string) :
  parseCSV csvText = map rackGroup (groupByRoom (createdDevices csvText)).
Proof.
  unfold parseCSV, createdDevices, importRows, columnsOf, linesOf.
  destruct (List.length (split newline (trim csvText)) <? 2)%nat eqn:E.
  - apply Nat.ltb_lt in E.
    destruct (split newline (trim csvText)) as [|l [|l' ls]]; simpl in *;
      try reflexivity; lia.
  - rewrite rowsLoop_racksMap. simpl. now rewrite pushAll_groupByRoom.
Qed.

Lemma created_unplaced (csvText : string) (d : Device) :
  In d (createdDevices csvText) -> unplaced d = d.
Proof.
  unfold createdDevices. intros [r [_ Hd]]%in_flat_map.
  unfold rowDevices in Hd. apply in_map_iff in Hd as [k [<- _]]. reflexivity.
Qed.

Lemma created_ids_NoDup (csvText : string) : NoDup (map id (createdDevices csvText)).
Proof. apply processedRows_ids_NoDup. Qed.

Lemma outputDevices_groups (csvText : string) :
  outputDevices csvText =
  flat_map (fun r => positionDevices 48 (inRoom r (createdDevices csvText)))
    (firstSeen (map room (createdDevices csvText))).
Proof.
  unfold outputDevices. rewrite parseCSV_groups. unfold groupByRoom.
  rewrite map_map. generalize (firstSeen (map room (createdDevices csvText))).
  intros ks. induction ks as [|k ks IH]; simpl; [reflexivity | now rewrite IH].
Qed.

(** The output holds the created records, each once, placement apart. *)
Lemma outputDevices_Permutation (csvText : string) :
  Permutation (map unplaced (outputDevices csvText)) (createdDevices csvText).
Proof.
  rewrite outputDevices_groups.
  set (ds := createdDevices csvText).
  assert (E : map unplaced
                (flat_map (fun r => positionDevices 48 (inRoom r ds))
                   (firstSeen (map room ds))) =
              flat_map (fun r => inRoom r ds) (firstSeen (map room ds))).
  { induction (firstSeen (map room ds)) as [|k ks IH]; simpl; [reflexivity|].
    rewrite map_app, IH, positionDevices_unplaced. f_equal.
    rewrite <- (map_id (inRoom k ds)) at 2. apply map_ext_in.
    intros d [Hd _]%filter_In. now apply (created_unplaced csvText). }
  rewrite E. apply groups_Permutation.
  - apply firstSeen_NoDup.
  - intros d Hd. apply firstSeen_In, in_map, Hd.
Qed.

End WholeImport.

(* ================================================================== *)
(** * Properties of the importer and of the allocator *)
(* ================================================================== *)

Section QuoteFacts.

Lemma removeQuotes_notQuote (s : string) : allChars notQuote (removeQuotes s) = true.
Proof.
  induction s as [|c s IH]; simpl; [reflexivity|].
  destruct (Ascii.eqb c dquote) eqn:E; [exact IH|].
  simpl. unfold notQuote at 1. now rewrite E.
Qed.

Lemma trimStart_allChars (p : ascii -> bool) (s : string) :
  allChars p s = true -> allChars p (trimStart s) = true.
Proof.
  induction s as [|c s IH]; simpl; [reflexivity|].
  intros H. destruct (isWhiteSpace c); [|exact H].
  apply andb_prop in H as [_ H]. now apply IH.
Qed.

Lemma trimEnd_allChars (p : ascii -> bool) (s : string) :
  allChars p s = true -> allChars p (trimEnd s) = true.
Proof.
  induction s as [|c s IH]; simpl; [reflexivity|].
  intros [Hc Hs]%andb_prop. specialize (IH Hs).
  destruct (trimEnd s) as [|c' s'].
  - destruct (isWhiteSpace c); simpl; [reflexivity | now rewrite Hc].
  - simpl in *. now rewrite Hc, IH.
Qed.

Lemma trim_allChars (p : ascii -> bool) (s : string) :
  allChars p s = true -> allChars p (trim s) = true.
Proof. intros H. now apply trimEnd_allChars, trimStart_allChars. Qed.

Lemma dropTrailingQuote_notQuote (s : string) :
  allChars notQuote s = true -> dropTrailingQuote s = s.
Proof.
  induction s as [|c s IH]; simpl; [reflexivity|].
  intros [Hc Hs]%andb_prop. unfold notQuote in Hc. apply negb_true_iff in Hc.
  destruct s as [|c' s']; [now rewrite Hc|]. now rewrite IH.
Qed.

Lemma stripQuotes_notQuote (s : string) :
  allChars notQuote s = true -> stripQuotes s = s.
Proof.
  intros H. unfold stripQuotes.
  assert (E : dropLeadingQuote s = s).
  { destruct s as [|c s]; [reflexivity|]. simpl in *.
    apply andb_prop in H as [Hc _]. unfold notQuote in Hc.
    apply negb_true_iff in Hc. now rewrite Hc. }
  rewrite E. now apply dropTrailingQuote_notQuote.
Qed.

End QuoteFacts.

(** C5, as the claim states it, fails: a quote in the middle of a field is
    removed, and so are both quotes of a doubled pair, where the claim has
    only one enclosing pair stripped and every other character kept. *)
Lemma C5_counterexample :
  parseLine strayQuoteLine = ["xy"] /\
  specParseLine strayQuoteLine = [strayQuoteLine] /\
  parseLine doubledQuoteLine = ["x"] /\
  specParseLine doubledQuoteLine = [(quote ++ "x" ++ quote)%string] /\
  parseLine strayQuoteLine <> specParseLine strayQuoteLine.
Proof. repeat split; try reflexivity. vm_compute. discriminate. Qed.

(** C5, amended: for every line, a quote character toggles the
    inside-quotes state and a comma inside quotes does not split; each field
    is the text between two splitting commas with every quote character
    removed and then trimmed of surrounding white space, its other
    characters kept in order; no quote is left in a field, so the later
    removal of one enclosing pair changes nothing. *)
Theorem C5_parseLine_fields (text : string) :
  parseLine text =
    map (fun field => trim (removeQuotes field)) (specSplit text EmptyString false) /\
  Forall (fun field => allChars notQuote field = true /\ stripQuotes field = field)
    (parseLine text).
Proof.
  split; [apply parseLine_split|].
  rewrite parseLine_split. apply Forall_forall.
  intros f [raw [<- _]]%in_map_iff.
  assert (H : allChars notQuote (trim (removeQuotes raw)) = true)
    by apply trim_allChars, removeQuotes_notQuote.
  split; [exact H | now apply stripQuotes_notQuote].
Qed.

Section BlankLines.

Lemma split_single (s : string) :
  allChars notNewline s = true -> split newline s = [s].
Proof.
  induction s as [|c s IH]; simpl; [reflexivity|].
  intros [Hc Hs]%andb_prop. unfold notNewline in Hc. apply negb_true_iff in Hc.
  now rewrite Hc, IH.
Qed.

Lemma split_nonempty (s : string) : split newline s <> [].
Proof.
  destruct s as [|c s]; simpl; [discriminate|].
  destruct (Ascii.eqb c newline); [discriminate|].
  destruct (split newline s); discriminate.
Qed.

(** One line exactly when no newline is left after trimming. *)
Lemma split_length (s : string) :
  (List.length (split newline s) < 2)%nat <-> allChars notNewline s = true.
Proof.
  split; [|intros H; rewrite split_single by assumption; simpl; lia].
  induction s as [|c s IH]; simpl; [reflexivity|].
  unfold notNewline at 1. destruct (Ascii.eqb c newline); simpl.
  - pose proof (split_nonempty s). destruct (split newline s); simpl; [tauto | lia].
  - destruct (split newline s) as [|x xs] eqn:E; simpl in *; [intros _; now apply IH; lia|].
    exact IH.
Qed.

Lemma parseInt_blank (j : nat) : parseInt (nth_error [EmptyString] j) = None.
Proof. destruct j as [|[|j]]; reflexivity. Qed.

Lemma qty_blank (cols : Columns) : Fields.qty cols [EmptyString] = 1%Z.
Proof.
  unfold Fields.qty, Fields.positiveIntOr.
  destruct (idxQty cols); [now rewrite parseInt_blank | reflexivity].
Qed.

Lemma deviceName_blank (cols : Columns) :
  Fields.deviceName cols [EmptyString] = UnknownDevice.
Proof.
  unfold Fields.deviceName.
  destruct (idxDevice cols) as [[|[|j]]|]; reflexivity.
Qed.

Lemma room_blank (cols : Columns) (lastRoom0 : string) :
  Fields.room cols [EmptyString] lastRoom0 =
  (match idxRoom cols with Some _ => lastRoom0 | None => DefaultRoom end, lastRoom0).
Proof.
  unfold Fields.room.
  destruct (idxRoom cols) as [[|[|j]]|]; reflexivity.
Qed.

(** Without a room column the loop never changes [lastRoom]. *)
Lemma processRow_lastRoom (headers : list string) (cols : Columns)
    (st : LoopState) (i : nat) (line : string) :
  idxRoom cols = None ->
  lastRoom (processRow headers cols st i line) = lastRoom st.
Proof.
  intros H. unfold processRow.
  destruct (skipRow headers (parseLine line)); [reflexivity|].
  unfold Fields.room. now rewrite H.
Qed.

Lemma rowsLoop_lastRoom (headers : list string) (cols : Columns) (lines : list string) :
  idxRoom cols = None ->
  forall (st : LoopState) (i : nat),
    lastRoom (rowsLoop headers cols st i lines) = lastRoom st.
Proof.
  intros H. induction lines as [|line rest IH]; intros st i; simpl; [reflexivity|].
  rewrite IH. now apply processRow_lastRoom.
Qed.

End BlankLines.

(** C10: a data line always splits into at least one field; the skip rule
    therefore drops a row exactly when it has one field and the header has
    three or more; under a header of two fields or fewer a blank line,
    wherever the loop has got to, is processed: it adds one record with the
    name "Unknown Device" in the room that fill-down currently holds, and
    leaves that room unchanged (a blank line after a row of room R1 adds an
    unknown device to R1). *)
Theorem C10_skip_rule :
  (forall text : string, (1 <= List.length (parseLine text))%nat) /\
  (forall (headers : list string) (text : string),
      skipRow headers (parseLine text) =
      ((List.length (parseLine text) =? 1) && (3 <=? List.length headers))%nat) /\
  (forall (headers : list string) (cols : Columns) (before : list string)
          (i : nat) (line : string),
      allChars isWhiteSpace line = true ->
      (List.length headers <= 2)%nat ->
      let st := rowsLoop headers cols initialState 1 before in
      let device := newDevice cols [EmptyString] (lastRoom st) i 0 in
      processRow headers cols st i line =
        {| racksMap := addDevice (racksMap st) (lastRoom st) device;
           lastRoom := lastRoom st |} /\
      name device = UnknownDevice /\ room device = lastRoom st) /\
  map (fun g => (roomId g, map name (devices g))) (parseCSV blankLineInput) =
    [("R1", ["srv"; UnknownDevice]); ("R2", ["x"])].
Proof.
  split; [exact parseLine_nonempty|]. split; [|split; [|vm_compute; reflexivity]].
  - intros headers text. unfold skipRow.
    pose proof (parseLine_nonempty text) as H.
    destruct (List.length (parseLine text)) as [|[|n]]; [lia| |].
    + destruct (List.length headers) as [|[|[|h]]]; reflexivity.
    + simpl. now rewrite andb_false_r.
  - intros headers cols before i line Hblank Hlen st device.
    split; [|split; [apply deviceName_blank | reflexivity]].
    unfold processRow. rewrite parseLine_blank by assumption.
    assert (Hskip : skipRow headers [EmptyString] = false).
    { unfold skipRow. simpl (List.length [EmptyString]).
      destruct (List.length headers) as [|[|[|h]]]; try reflexivity; lia. }
    rewrite Hskip, room_blank.
    assert (Hroom : match idxRoom cols with
                    | Some _ => lastRoom st
                    | None => DefaultRoom
                    end = lastRoom st).
    { destruct (idxRoom cols) eqn:E; [reflexivity|].
      subst st. now rewrite rowsLoop_lastRoom. }
    rewrite Hroom. unfold addReplicas. now rewrite qty_blank.
Qed.

(** C10 at a concrete input: after one data line in room R1, a blank line
    under a two-field header adds an unknown device to R1. *)
Lemma C10_skip_rule_witness :
  allChars isWhiteSpace " " = true /\ (List.length ["Room"; "Device"] <= 2)%nat /\
  name (newDevice (resolveColumns ["Room"; "Device"]) [EmptyString]
          (lastRoom (rowsLoop ["Room"; "Device"] (resolveColumns ["Room"; "Device"])
                       initialState 1 ["R1,srv"])) 2 0) = UnknownDevice.
Proof.
  split; [reflexivity|]. split; [simpl; lia|].
  exact (proj1 (proj2 (proj1 (proj2 (proj2 C10_skip_rule)) ["Room"; "Device"]
                         (resolveColumns ["Room"; "Device"]) ["R1,srv"] 2 " "
                         eq_refl (le_n 2)))).
Defined.

(** C8: an input with no newline left after trimming (empty, white space
    only, or a header row alone) has fewer than two lines and yields the
    empty sequence of rooms. *)
Theorem C8_fewer_than_two_lines (csvText : string) :
  allChars notNewline (trim csvText) = true ->
  (List.length (linesOf csvText) < 2)%nat /\ parseCSV csvText = [].
Proof.
  intros H. split; [now apply split_length|].
  unfold parseCSV. now rewrite split_single.
Qed.

(** C8 at a header row alone and at white space only. *)
Lemma C8_fewer_than_two_lines_witness :
  parseCSV headerOnly = [] /\ parseCSV blankInput = [] /\ parseCSV EmptyString = [].
Proof.
  split; [|split].
  - exact (proj2 (C8_fewer_than_two_lines headerOnly eq_refl)).
  - exact (proj2 (C8_fewer_than_two_lines blankInput eq_refl)).
  - exact (proj2 (C8_fewer_than_two_lines EmptyString eq_refl)).
Defined.

(** C3: for every row, the per-unit max power the loop body computes is the
    one the priority rule gives: the per-device-max column when it is
    present and parses above 0, verbatim, whatever the total-max column
    holds; else the total-max column above 0 divided by the row's quantity;
    else the power-supply rating, any number at all, times the per-unit
    power-supply count; else 0. *)
Theorem C3_power_priority :
  (forall (cols : Columns) (row : list string),
      Fields.maxPower cols row = specMaxPower cols row) /\
  map powerRatingPerDevice (outputDevices bothPowersInput) = [300%float; 300%float].
Proof.
  split; [|vm_compute; reflexivity]. intros cols row.
  unfold Fields.maxPower, specMaxPower, Fields.rawMax, Fields.rawTotal,
    Fields.rawRating, Fields.floatAt, columnNumber, positiveNumber.
  destruct (idxMaxPowerPerDevice cols) as [jm|];
    [destruct (is_nan (parseFloat (nth_error row jm))); simpl;
     [|destruct (0 <? parseFloat (nth_error row jm))%float; [reflexivity|]]
    | change (is_nan nan) with true; simpl ];
  (destruct (idxTotalMaxPower cols) as [jt|];
    [destruct (is_nan (parseFloat (nth_error row jt))); simpl;
     [|destruct (0 <? parseFloat (nth_error row jt))%float; [reflexivity|]]
    | change (is_nan nan) with true; simpl ]);
  (destruct (idxPSURating cols) as [jr|];
    [destruct (is_nan (parseFloat (nth_error row jr))); reflexivity
    | reflexivity ]).
Qed.

(** The columns of C3 are the resolved ones: a header "Total Max Power
    Consumption" contains the keyword "Max Power", so with no other power
    header it is resolved as the per-device column as well, and its value
    is used undivided. *)
Example total_header_resolves_as_per_device :
  idxMaxPowerPerDevice (resolveColumns ["Device"; "Qty"; "Total Max Power Consumption"])
    = Some 2%nat /\
  idxTotalMaxPower (resolveColumns ["Device"; "Qty"; "Total Max Power Consumption"])
    = Some 2%nat.
Proof. split; reflexivity. Qed.

(** C4 fails on the code: a negative power-supply rating goes through
    unchecked, and the record's max power and typical power are negative
    (-5 W and -3 W for a rating of -5); so does a negative typical-power
    cell (-10 W). *)
Theorem C4_negative_power :
  map (fun d => ((powerRatingPerDevice d <? 0)%float, (typicalPower d <? 0)%float))
    (outputDevices negativeRatingInput) = [(true, true)] /\
  map powerRatingPerDevice (outputDevices negativeRatingInput) = [(-5)%float] /\
  map typicalPower (outputDevices negativeRatingInput) = [(-3)%float] /\
  map typicalPower (outputDevices negativeTypicalInput) = [(-10)%float].
Proof. repeat split; vm_compute; reflexivity. Qed.

(** C7: in every room of the output, the total power is the sum, from 0 and
    in list order, of the per-unit max power of the room's records, which
    are all the records created for that room: a device left unplaced
    counts like a placed one (a 48U device of 100 W and an unplaced 2U
    device of 50 W total 150 W). *)
Theorem C7_total_power (csvText : string) :
  Forall (fun g =>
            totalPower g = sumPower (devices g) /\
            map powerRatingPerDevice (devices g) =
              map powerRatingPerDevice (inRoom (roomId g) (createdDevices csvText)) /\
            totalPower g = sumPower (inRoom (roomId g) (createdDevices csvText)))
    (parseCSV csvText) /\
  map (fun g => (map uPosition (devices g), totalPower g)) (parseCSV overflowInput) =
    [([Some 48%Z; None], 150%float)].
Proof.
  split; [|vm_compute; reflexivity].
  rewrite parseCSV_groups. apply Forall_forall.
  intros g [[r ds] [<- Hin]]%in_map_iff.
  unfold groupByRoom in Hin. apply in_map_iff in Hin as [r' [E _]].
  inversion E; subst. unfold rackGroup. simpl.
  split; [reflexivity|]. split; [apply positionDevices_power|].
  apply sumPower_map, positionDevices_power.
Qed.

(** C2: the devices of a room go through the allocator in input order with
    a cursor that starts at the top of the rack (48 in [parseCSV]).  With
    the cursor [c] that the devices before it have left, a device of height
    [h] is placed at [c] exactly when [c - h + 1 >= 1], and the cursor
    becomes [c - h]; otherwise it stays unplaced and the cursor stays [c],
    so that a later, smaller device can still be placed.  The cursor is the
    start minus the units of the devices placed so far.  In a rack of 6,
    heights 2, 1, 3 get positions 6, 4, 3; heights 4, 3, 2 get 6, none, 2. *)
Theorem C2_top_down_stacking :
  (forall (currentU : Z) (pre : list Device) (d : Device) (post : list Device),
      let cursor := cursorAfter currentU pre in
      positionDevices currentU (pre ++ d :: post) =
      positionDevices currentU pre ++
      (if (1 <=? cursor - uHeight d + 1)%Z
       then placeAt d cursor :: positionDevices (cursor - uHeight d) post
       else unplaced d :: positionDevices cursor post)) /\
  (forall (d : Device) (pos : Z),
      uPosition (placeAt d pos) = Some pos /\ uPosition (unplaced d) = None) /\
  (forall (currentU : Z) (ds : list Device),
      cursorAfter currentU ds =
      (currentU - placedUnits (positionDevices currentU ds))%Z) /\
  (forall csvText : string,
      map devices (parseCSV csvText) =
      map (fun r => positionDevices 48 (inRoom r (createdDevices csvText)))
        (map roomId (parseCSV csvText))) /\
  map uPosition (positionDevices 6 (map deviceOfHeight [2; 1; 3]%Z)) =
    [Some 6; Some 4; Some 3]%Z /\
  map uPosition (positionDevices 6 (map deviceOfHeight [4; 3; 2]%Z)) =
    [Some 6; None; Some 2]%Z.
Proof.
  split; [|split; [|split; [|split; [|split]]]]; try reflexivity.
  - intros currentU pre d post cursor. apply positionDevices_app.
  - intros d pos. split; reflexivity.
  - intros currentU ds. apply cursorAfter_placedUnits.
  - intros csvText. rewrite parseCSV_groups. unfold groupByRoom.
    rewrite !map_map. reflexivity.
Qed.

Section FillDown.

Variable headers : list string.
Variable cols : Columns.

Lemma last_cons (x d : string) (l : list string) : last (x :: l) d = last l x.
Proof.
  revert x d. induction l as [|y l IH]; intros x d; [reflexivity|].
  change (last (x :: y :: l) d) with (last (y :: l) d).
  now rewrite (IH y d), (IH y x).
Qed.

(** The room of a row with a room column: its cleaned cell when that is not
    empty, the last seen room otherwise; the result is the new last seen
    room. *)
Lemma room_step (j : nat) (row : list string) (lastRoom0 : string) :
  idxRoom cols = Some j ->
  Fields.room cols row lastRoom0 =
  (if nonEmpty (roomCell j row) then (roomCell j row, roomCell j row)
   else (lastRoom0, lastRoom0)).
Proof.
  intros H. unfold Fields.room, roomCell, nonEmpty. rewrite H.
  destruct (nth_error row j) as [val|]; [|reflexivity].
  destruct val as [|c val]; [reflexivity|].
  simpl (negb (String.eqb (String c val) EmptyString)). simpl andb.
  destruct (trim (stripQuotes (String c val))); reflexivity.
Qed.

Lemma nearestRoom_0 (d c : string) (cells : list string) :
  nearestRoom d (c :: cells) 0 = if nonEmpty c then c else d.
Proof.
  unfold nearestRoom. simpl firstn. simpl filter. destruct (nonEmpty c); reflexivity.
Qed.

Lemma nearestRoom_S (d c : string) (cells : list string) (n : nat) :
  nearestRoom d (c :: cells) (S n) =
  nearestRoom (if nonEmpty c then c else d) cells n.
Proof.
  unfold nearestRoom.
  change (firstn (S (S n)) (c :: cells)) with (c :: firstn (S n) cells).
  simpl filter. destruct (nonEmpty c); [apply last_cons | reflexivity].
Qed.

Lemma fillDown_cons (j i : nat) (row : list string) (rm d : string)
    (rows : list ProcessedRow) :
  map (nearestRoom d (map (fun r => roomCell j (rowFields r)) ((i, row, rm) :: rows)))
    (seq 0 (List.length ((i, row, rm) :: rows))) =
  (if nonEmpty (roomCell j row) then roomCell j row else d)
  :: map (nearestRoom (if nonEmpty (roomCell j row) then roomCell j row else d)
            (map (fun r => roomCell j (rowFields r)) rows))
       (seq 0 (List.length rows)).
Proof.
  change (List.length ((i, row, rm) :: rows)) with (S (List.length rows)).
  change (seq 0 (S (List.length rows))) with (0%nat :: seq 1 (List.length rows)).
  rewrite <- seq_shift, !map_cons, map_map.
  change (rowFields (i, row, rm)) with row.
  rewrite nearestRoom_0. f_equal. apply map_ext. intros n. apply nearestRoom_S.
Qed.

Lemma processedRows_fillDown (j : nat) (lines : list string) :
  idxRoom cols = Some j ->
  forall (lastRoom0 : string) (i : nat),
    let rows := processedRows headers cols lastRoom0 i lines in
    map rowRoom rows =
    map (nearestRoom lastRoom0 (map (fun r => roomCell j (rowFields r)) rows))
      (seq 0 (List.length rows)).
Proof.
  intros H. induction lines as [|line rest IH]; intros lastRoom0 i; [reflexivity|].
  cbv zeta in *. cbn [processedRows].
  destruct (skipRow headers (parseLine line)); [apply IH|].
  rewrite (room_step j) by assumption.
  destruct (nonEmpty (roomCell j (parseLine line))) eqn:E;
    cbv beta iota; rewrite fillDown_cons, E, map_cons, <- IH; reflexivity.
Qed.

Lemma processedRows_default (lines : list string) :
  idxRoom cols = None ->
  forall (lastRoom0 : string) (i : nat),
    let rows := processedRows headers cols lastRoom0 i lines in
    map rowRoom rows = repeat DefaultRoom (List.length rows).
Proof.
  intros H. induction lines as [|line rest IH]; intros lastRoom0 i; simpl; [reflexivity|].
  destruct (skipRow headers (parseLine line)); [apply IH|].
  unfold Fields.room. rewrite H. simpl. f_equal. apply IH.
Qed.

(** With a room column, the loop's [lastRoom] ends as the last non-empty
    room cell of the processed rows, or as it started when there is none. *)
Lemma rowsLoop_lastRoom_fill (j : nat) (lines : list string) :
  idxRoom cols = Some j ->
  forall (st : LoopState) (i : nat),
    lastRoom (rowsLoop headers cols st i lines) =
    last (filter nonEmpty
            (map (fun r => roomCell j (rowFields r))
               (processedRows headers cols (lastRoom st) i lines)))
      (lastRoom st).
Proof.
  intros H. induction lines as [|line rest IH]; intros st i; [reflexivity|].
  cbn [rowsLoop processedRows]. rewrite IH. unfold processRow.
  destruct (skipRow headers (parseLine line)); [reflexivity|].
  rewrite (room_step j) by assumption.
  destruct (nonEmpty (roomCell j (parseLine line))) eqn:E; cbv beta iota;
    cbn [lastRoom map rowFields fst snd filter]; rewrite E;
    [now rewrite last_cons | reflexivity].
Qed.

End FillDown.

(** C6: the loop of [parseCSV] pushes the records of the processed rows,
    each row with its room, and [parseCSV] groups exactly those records.
    With a room column, the room of the n-th processed row is its own
    cleaned cell when that is not empty, and otherwise the nearest
    non-empty cell of an earlier processed row, or the default room label
    when there is none; a non-empty cell becomes the loop's last seen room,
    which ends as the last non-empty cell; with no room column every
    processed row has the default room label and the last seen room stays
    the default.  The records of a row all carry that room. *)
Theorem C6_room_fill_down (headers : list string) (cols : Columns) (i : nat)
    (lines : list string) :
  let rows := processedRows headers cols DefaultRoom i lines in
  let final := rowsLoop headers cols initialState i lines in
  map rowRoom rows =
    match idxRoom cols with
    | Some j =>
        map (nearestRoom DefaultRoom (map (fun r => roomCell j (rowFields r)) rows))
          (seq 0 (List.length rows))
    | None => repeat DefaultRoom (List.length rows)
    end /\
  Forall (fun r => Forall (fun d => room d = rowRoom r) (rowDevices cols r)) rows /\
  racksMap final = groupByRoom (flat_map (rowDevices cols) rows) /\
  lastRoom final =
    match idxRoom cols with
    | Some j =>
        last (filter nonEmpty (map (fun r => roomCell j (rowFields r)) rows))
          DefaultRoom
    | None => DefaultRoom
    end /\
  forall csvText : string,
    parseCSV csvText =
    map rackGroup
      (groupByRoom
         (flat_map (rowDevices (columnsOf csvText))
            (processedRows (headersOf (hd EmptyString (linesOf csvText)))
               (columnsOf csvText) DefaultRoom 1 (tl (linesOf csvText))))).
Proof.
  intros rows final. split; [|split; [|split; [|split]]].
  - destruct (idxRoom cols) as [j|] eqn:E.
    + now apply processedRows_fillDown.
    + now apply processedRows_default.
  - apply Forall_forall. intros r _. apply Forall_forall.
    intros d [k [<- _]]%in_map_iff. reflexivity.
  - subst final rows. rewrite rowsLoop_racksMap. apply pushAll_groupByRoom.
  - subst final rows. destruct (idxRoom cols) as [j|] eqn:E.
    + now rewrite (rowsLoop_lastRoom_fill headers cols j).
    + now rewrite rowsLoop_lastRoom.
  - intros csvText. apply parseCSV_groups.
Qed.

Section RoomOrder.

Lemma indexOf_filter (p : string -> bool) (a b : string) (l : list string) :
  p a = true -> p b = true ->
  (indexOf a (filter p l) < indexOf b (filter p l))%nat <->
  (indexOf a l < indexOf b l)%nat.
Proof.
  intros Ha Hb. induction l as [|y l IH]; simpl; [tauto|].
  destruct (p y) eqn:Hy; simpl.
  - destruct (String.eqb y a), (String.eqb y b); try tauto; try lia.
  - destruct (String.eqb_spec y a) as [->|]; [congruence|].
    destruct (String.eqb_spec y b) as [->|]; [congruence|]. lia.
Qed.

(** [firstSeen] keeps the order of the first occurrences. *)
Lemma firstSeen_order (a b : string) (l : list string) :
  (indexOf a (firstSeen l) < indexOf b (firstSeen l))%nat <->
  (indexOf a l < indexOf b l)%nat.
Proof.
  induction l as [|x l IH]; simpl; [tauto|].
  destruct (String.eqb_spec x a) as [Ea|Ha]; destruct (String.eqb_spec x b) as [Eb|Hb];
    try tauto; try lia.
  rewrite <- !Nat.succ_lt_mono, <- IH.
  apply indexOf_filter; apply negb_true_iff, String.eqb_neq; congruence.
Qed.

End RoomOrder.

(** C9: the rooms of the output are the distinct rooms of the processed
    rows in the order in which they first occur, each once: room A comes
    before room B in the output exactly when the first processed row of A
    comes before the first processed row of B. *)
Theorem C9_first_seen_room_order (csvText : string) :
  map roomId (parseCSV csvText) = firstSeen (map rowRoom (importRows csvText)) /\
  NoDup (map roomId (parseCSV csvText)) /\
  (forall a b : string,
      (indexOf a (map roomId (parseCSV csvText)) <
       indexOf b (map roomId (parseCSV csvText)))%nat <->
      (indexOf a (map rowRoom (importRows csvText)) <
       indexOf b (map rowRoom (importRows csvText)))%nat).
Proof.
  assert (E : map roomId (parseCSV csvText) =
              firstSeen (map rowRoom (importRows csvText))).
  { rewrite parseCSV_groups. unfold groupByRoom. rewrite !map_map. simpl.
    rewrite map_id. apply firstSeen_rows. }
  rewrite E. split; [reflexivity|]. split; [apply firstSeen_NoDup|].
  intros a b. apply firstSeen_order.
Qed.

(** C1: a processed row of quantity Q (at least 1) creates exactly Q
    records, equal in every field but [id], whose ids are the id template
    applied to the row's room, name and line index and to the replica
    indices 0..Q-1; the records of the output are, placement apart, exactly
    the records created for the processed rows, each once; and no two
    records of the output have the same id. *)
Theorem C1_replication :
  (forall (cols : Columns) (r : ProcessedRow),
      let Q := Fields.qty cols (rowFields r) in
      (1 <= Q)%Z /\
      List.length (rowDevices cols r) = Z.to_nat Q /\
      Forall (fun d => Forall (sameButId d) (rowDevices cols r)) (rowDevices cols r) /\
      map id (rowDevices cols r) =
        map (deviceId (rowRoom r) (Fields.deviceName cols (rowFields r)) (rowIndex r))
          (seq 0 (Z.to_nat Q)) /\
      Forall (fun d => room d = rowRoom r /\
                       name d = Fields.deviceName cols (rowFields r))
        (rowDevices cols r)) /\
  (forall csvText : string,
      Permutation (map unplaced (outputDevices csvText))
        (flat_map (rowDevices (columnsOf csvText)) (importRows csvText)) /\
      NoDup (map id (outputDevices csvText))).
Proof.
  split.
  - intros cols r Q. split; [pose proof (qty_pos cols (rowFields r)); subst Q; lia|].
    split; [unfold rowDevices; now rewrite length_map, length_seq|].
    split; [|split].
    + apply Forall_forall. intros d [k [<- _]]%in_map_iff.
      apply Forall_forall. intros d' [k' [<- _]]%in_map_iff.
      repeat split.
    + unfold rowDevices. rewrite map_map. reflexivity.
    + apply Forall_forall. intros d [k [<- _]]%in_map_iff. now split.
  - intros csvText. split; [apply outputDevices_Permutation|].
    assert (P := Permutation_map id (outputDevices_Permutation csvText)).
    rewrite map_map in P. simpl in P.
    apply Permutation_sym in P.
    apply (Permutation_NoDup P), created_ids_NoDup.
Qed.

(* ================================================================== *)
(** * Further properties of the importer *)
(* ================================================================== *)

(** X1: Quantity and power-supply share (lines 66-78), for counts below
    2^53, where the integers of the model are the numbers of the code: the
    quantity and the power-supply total are at least 1, and the per-unit
    count [p] is the whole part of max(total, quantity) / quantity: at
    least 1, and [p * qty <= max(total, qty) < (p + 1) * qty]; with no
    power-supply column it is 1. *)
Theorem psPerDevice_share (cols : Columns) (row : list string) :
  let q := Fields.qty cols row in
  let t := Fields.psCountTotal cols row in
  let p := Fields.psPerDevice cols row in
  (q < 2 ^ 53)%Z -> (t < 2 ^ 53)%Z ->
  (1 <= q)%Z /\ (1 <= t)%Z /\ (1 <= p)%Z /\
  (p * q <= Z.max t q)%Z /\ (Z.max t q < (p + 1) * q)%Z /\
  match idxPSCount cols with
  | None => p = 1%Z
  | Some _ => True
  end.
Proof.
  intros q t p _ _.
  assert (Hq : (0 < q)%Z) by apply qty_pos.
  assert (Ht : (0 < t)%Z) by (apply positiveIntOr_pos, Hq).
  assert (Hp : p = Z.max 1 (t / q)) by reflexivity.
  pose proof (Z.div_mod t q ltac:(lia)) as Hdiv.
  pose proof (Z.mod_pos_bound t q Hq) as Hmod.
  assert (Hnn : (0 <= t / q)%Z) by (apply Z.div_pos; lia).
  assert (Hlow : (p * q <= Z.max t q)%Z /\ (Z.max t q < (p + 1) * q)%Z).
  { rewrite Hp.
    destruct (Z.max_spec 1 (t / q)) as [[L E]|[L E]];
      destruct (Z.max_spec t q) as [[L' E']|[L' E']]; rewrite E, E'; nia. }
  split; [lia|]. split; [lia|]. split; [lia|].
  split; [apply Hlow|]. split; [apply Hlow|].
  destruct (idxPSCount cols) eqn:E; [exact I|].
  assert (Etq : t = q) by (subst t q; unfold Fields.psCountTotal; now rewrite E).
  rewrite Hp, Etq, Z.div_same by lia. reflexivity.
Qed.

(** X1, witness: 7 power supplies for 3 units give 2 per unit. *)
Lemma psPerDevice_share_witness :
  Fields.psPerDevice (resolveColumns ["Device"; "Qty"; "PSU Count"]) ["X"; "3"; "7"]
    = 2%Z /\
  (2 * 3 <= Z.max 7 3)%Z /\ (Z.max 7 3 < (2 + 1) * 3)%Z.
Proof.
  split; [reflexivity|].
  pose proof (psPerDevice_share (resolveColumns ["Device"; "Qty"; "PSU Count"])
                ["X"; "3"; "7"] eq_refl eq_refl) as H.
  split; [exact (proj1 (proj2 (proj2 (proj2 H)))) |
          exact (proj1 (proj2 (proj2 (proj2 (proj2 H)))))].
Defined.

Section RecordInvariants.

Lemma output_created (csvText : string) (d : Device) :
  In d (outputDevices csvText) -> In (unplaced d) (createdDevices csvText).
Proof.
  intros H. apply (Permutation_in _ (outputDevices_Permutation csvText)).
  now apply in_map.
Qed.

Lemma created_newDevice (csvText : string) (d : Device) :
  In d (createdDevices csvText) ->
  exists r k, In r (importRows csvText) /\
    d = newDevice (columnsOf csvText) (rowFields r) (rowRoom r) (rowIndex r) k.
Proof.
  unfold createdDevices. intros [r [Hr Hd]]%in_flat_map.
  unfold rowDevices in Hd. apply in_map_iff in Hd as [k [<- _]].
  now exists r, k.
Qed.

Lemma deviceName_nonEmpty (cols : Columns) (row : list string) :
  Fields.deviceName cols row <> EmptyString.
Proof.
  unfold Fields.deviceName.
  destruct (idxDevice cols) as [j|]; [|discriminate].
  destruct (nth_error row j) as [v|]; [|discriminate].
  destruct (stripQuotes v); discriminate.
Qed.

Lemma connectionType_nonEmpty (cols : Columns) (row : list string) :
  Fields.connectionType cols row <> EmptyString.
Proof.
  unfold Fields.connectionType.
  destruct (idxConnType cols) as [j|]; [|discriminate].
  destruct (nth_error row j) as [v|]; [|discriminate].
  destruct (stripQuotes v); discriminate.
Qed.

(** The room of a row and the new last seen room are not empty when the
    last seen room is not. *)
Lemma room_nonEmpty (cols : Columns) (row : list string) (lastRoom0 : string) :
  lastRoom0 <> EmptyString ->
  fst (Fields.room cols row lastRoom0) <> EmptyString /\
  snd (Fields.room cols row lastRoom0) <> EmptyString.
Proof.
  intros H. unfold Fields.room.
  destruct (idxRoom cols) as [j|]; [|split; [discriminate | exact H]].
  destruct (nth_error row j) as [val|]; [|now split].
  destruct (negb (String.eqb val EmptyString)); simpl; [|now split].
  destruct (trim (stripQuotes val)); simpl; [now split | split; discriminate].
Qed.

Lemma processedRows_room_nonEmpty (headers : list string) (cols : Columns)
    (lines : list string) :
  forall (lastRoom0 : string) (i : nat) (r : ProcessedRow),
    lastRoom0 <> EmptyString ->
    In r (processedRows headers cols lastRoom0 i lines) ->
    rowRoom r <> EmptyString.
Proof.
  induction lines as [|line rest IH]; intros lastRoom0 i r Hne; simpl; [tauto|].
  destruct (skipRow headers (parseLine line)); [now apply IH|].
  pose proof (room_nonEmpty cols (parseLine line) lastRoom0 Hne) as [H1 H2].
  destruct (Fields.room cols (parseLine line) lastRoom0) as [rm lastRoom'].
  simpl in H1, H2. intros [<-|Hin]; [exact H1 | now apply (IH lastRoom' (S i))].
Qed.

Lemma replaceRuns_noWhiteSpace (s : string) :
  forall b : bool, allChars notWhiteSpace (replaceRuns b s) = true.
Proof.
  induction s as [|c s IH]; intros b; simpl; [reflexivity|].
  destruct (isWhiteSpace c) eqn:E.
  - destruct b; simpl; now rewrite IH.
  - simpl. unfold notWhiteSpace at 1. now rewrite E, IH.
Qed.

Lemma positionDevices_In (ds : list Device) :
  forall (currentU : Z) (d : Device),
    In d (positionDevices currentU ds) ->
    exists d0, In d0 ds /\ unplaced d = unplaced d0 /\
      psuConnections d =
        match uPosition d with
        | Some _ => map (fun p => (p, None)) (seq 0 (Z.to_nat (psuCount d)))
        | None => []
        end.
Proof.
  induction ds as [|d0 ds IH]; intros currentU d; simpl; [tauto|].
  destruct (1 <=? currentU - uHeight d0 + 1)%Z; simpl.
  - intros [<-|H]; [exists d0; auto|].
    destruct (IH _ _ H) as [d1 [H1 H2]]. exists d1; auto.
  - intros [<-|H]; [exists d0; auto|].
    destruct (IH _ _ H) as [d1 [H1 H2]]. exists d1; auto.
Qed.

End RecordInvariants.

(** X2: Every record of the output has a height and a power-supply count of at
    least 1, and a name, a room and a connection type that are not empty
    (lines 43-116): a missing or invalid cell is replaced by its default. *)
Theorem output_records_valid (csvText : string) :
  Forall (fun d => (1 <= uHeight d)%Z /\ (1 <= psuCount d)%Z /\
                   name d <> EmptyString /\ room d <> EmptyString /\
                   connectionType d <> EmptyString)
    (outputDevices csvText).
Proof.
  apply Forall_forall. intros d Hd.
  apply output_created, created_newDevice in Hd as [r [k [Hr E]]].
  assert (Hu : uHeight d = Fields.uHeight (columnsOf csvText) (rowFields r))
    by (change (uHeight d) with (uHeight (unplaced d)); now rewrite E).
  assert (Hp : psuCount d = Fields.psPerDevice (columnsOf csvText) (rowFields r))
    by (change (psuCount d) with (psuCount (unplaced d)); now rewrite E).
  assert (Hn : name d = Fields.deviceName (columnsOf csvText) (rowFields r))
    by (change (name d) with (name (unplaced d)); now rewrite E).
  assert (Hr' : room d = rowRoom r)
    by (change (room d) with (room (unplaced d)); now rewrite E).
  assert (Hc : connectionType d =
               Fields.connectionType (columnsOf csvText) (rowFields r))
    by (change (connectionType d) with (connectionType (unplaced d)); now rewrite E).
  rewrite Hu, Hp, Hn, Hr', Hc. repeat split.
  - pose proof (positiveIntOr_pos (rowFields r) (idxRackU (columnsOf csvText)) 1).
    unfold Fields.uHeight. lia.
  - unfold Fields.psPerDevice. lia.
  - apply deviceName_nonEmpty.
  - unfold importRows in Hr.
    assert (Hd0 : DefaultRoom <> EmptyString) by (unfold DefaultRoom; discriminate).
    exact (processedRows_room_nonEmpty _ _ _ _ _ _ Hd0 Hr).
  - apply connectionType_nonEmpty.
Qed.

(** X3: No id of the output holds a white-space character (line 106): every
    run of white space in the room or in the name has become one dash. *)
Theorem output_ids_without_white_space (csvText : string) :
  Forall (fun d => allChars notWhiteSpace (id d) = true) (outputDevices csvText).
Proof.
  apply Forall_forall. intros d Hd.
  apply output_created, created_newDevice in Hd as [r [k [Hr E]]].
  change (id d) with (id (unplaced d)). rewrite E. simpl.
  apply replaceRuns_noWhiteSpace.
Qed.

(** X4: Every group of the output holds at least one record, and each of its
    records carries the group's room (lines 118-152): a record sits in the
    group of its own room and in no other. *)
Theorem output_groups_by_room (csvText : string) :
  Forall (fun g => devices g <> [] /\ Forall (fun d => room d = roomId g) (devices g))
    (parseCSV csvText).
Proof.
  rewrite parseCSV_groups. apply Forall_forall.
  intros g [[r ds] [<- Hin]]%in_map_iff.
  unfold groupByRoom in Hin. apply in_map_iff in Hin as [r' [E Hr']].
  inversion E; subst r' ds. clear E. unfold rackGroup. simpl. split.
  - apply (proj1 (firstSeen_In _ _)), in_map_iff in Hr' as [d [Hd Hin]].
    assert (Hd' : In d (inRoom r (createdDevices csvText)))
      by (apply filter_In; split; [exact Hin | now apply String.eqb_eq]).
    intros Hnil.
    assert (L : List.length (map unplaced (positionDevices 48
                  (inRoom r (createdDevices csvText)))) = 0%nat)
      by now rewrite Hnil.
    rewrite positionDevices_unplaced, length_map in L.
    destruct (inRoom r (createdDevices csvText)); [contradiction | discriminate].
  - apply Forall_forall. intros d Hd.
    apply positionDevices_In in Hd as [d0 [Hd0 [E _]]].
    apply filter_In in Hd0 as [_ Hroom]. apply String.eqb_eq in Hroom.
    change (room d) with (room (unplaced d)). now rewrite E.
Qed.

Lemma output_connections (csvText : string) (d : Device) :
  In d (outputDevices csvText) ->
  psuConnections d =
    match uPosition d with
    | Some _ => map (fun p => (p, None)) (seq 0 (Z.to_nat (psuCount d)))
    | None => []
    end /\
  Forall (fun slot => snd slot = None) (psuConnections d).
Proof.
  intros Hd.
  rewrite outputDevices_groups in Hd. apply in_flat_map in Hd as [r [_ Hd]].
  apply positionDevices_In in Hd as [_ [_ [_ E]]].
  split; [exact E|]. rewrite E.
  destruct (uPosition d); [|constructor].
  apply Forall_forall. intros slot [p [<- _]]%in_map_iff. reflexivity.
Qed.

(** X5: The importer never links a power supply (lines 115, 137-147): a placed
    record has one slot per power supply, numbered from 0, all empty; an
    unplaced record has no slot. *)
Theorem output_connections_empty (csvText : string) :
  Forall (fun d =>
            psuConnections d =
              match uPosition d with
              | Some _ => map (fun p => (p, None)) (seq 0 (Z.to_nat (psuCount d)))
              | None => []
              end /\
            Forall (fun slot => snd slot = None) (psuConnections d))
    (outputDevices csvText).
Proof.
  apply Forall_forall. intros d Hd. now apply (output_connections csvText).
Qed.

Section Stacking.

Lemma created_heights (csvText : string) :
  Forall (fun d => (1 <= uHeight d)%Z) (createdDevices csvText).
Proof.
  apply Forall_forall. intros d Hd.
  apply created_newDevice in Hd as [r [k [_ ->]]]. simpl.
  pose proof (positiveIntOr_pos (rowFields r) (idxRackU (columnsOf csvText)) 1).
  unfold Fields.uHeight. lia.
Qed.

Lemma withinRack_weaken (c c' : Z) (ds : list Device) :
  (c <= c')%Z -> Forall (withinRack c) ds -> Forall (withinRack c') ds.
Proof.
  intros Hc. apply Forall_impl. intros d. unfold withinRack.
  destruct (uPosition d); [lia | tauto].
Qed.

Lemma positionDevices_stacking (ds : list Device) :
  Forall (fun d => (1 <= uHeight d)%Z) ds ->
  forall currentU : Z,
    Forall (withinRack currentU) (positionDevices currentU ds) /\
    ForallOrdPairs liesBelow (positionDevices currentU ds).
Proof.
  induction 1 as [|d ds Hd Hds IH]; intros currentU; simpl;
    [split; constructor|].
  destruct (Z.leb_spec 1 (currentU - uHeight d + 1)) as [Hfit|Hfit].
  - destruct (IH (currentU - uHeight d)%Z) as [Hin Hord]. split.
    + constructor; [unfold withinRack; simpl; lia|].
      apply (withinRack_weaken (currentU - uHeight d)); [lia | exact Hin].
    + constructor; [|exact Hord].
      revert Hin. apply Forall_impl. intros d2. unfold withinRack, liesBelow. simpl.
      destruct (uPosition d2); [lia | tauto].
  - destruct (IH currentU) as [Hin Hord]. split.
    + constructor; [exact I | exact Hin].
    + constructor; [|exact Hord]. apply Forall_forall. intros d2 _. exact I.
Qed.

Lemma positionDevices_heights (ds : list Device) :
  forall currentU : Z,
    map uHeight (positionDevices currentU ds) = map uHeight ds.
Proof.
  induction ds as [|d ds IH]; intros currentU; simpl; [reflexivity|].
  destruct (1 <=? currentU - uHeight d + 1)%Z; simpl; now rewrite IH.
Qed.

Lemma totalUnits_map (ds ds' : list Device) :
  map uHeight ds = map uHeight ds' -> totalUnits ds = totalUnits ds'.
Proof.
  revert ds'. induction ds as [|d ds IH]; intros [|d' ds'] H; simpl in *;
    try discriminate; [reflexivity|].
  inversion H as [[Hd Hds]]. rewrite Hd. f_equal. now apply IH.
Qed.

Lemma totalUnits_nonneg (ds : list Device) :
  Forall (fun d => (1 <= uHeight d)%Z) ds -> (0 <= totalUnits ds)%Z.
Proof. induction 1; simpl; lia. Qed.

(** Everything is placed exactly when everything fits. *)
Lemma positionDevices_all_placed (ds : list Device) :
  Forall (fun d => (1 <= uHeight d)%Z) ds ->
  forall currentU : Z,
    (0 <= currentU)%Z ->
    forallb isPlaced (positionDevices currentU ds) = true <->
    (totalUnits ds <= currentU)%Z.
Proof.
  induction 1 as [|d ds Hd Hds IH]; intros currentU Hc; simpl; [tauto|].
  pose proof (totalUnits_nonneg ds Hds) as Hnn.
  destruct (Z.leb_spec 1 (currentU - uHeight d + 1)) as [Hfit|Hfit]; simpl.
  - rewrite IH by lia. lia.
  - split; [discriminate | lia].
Qed.

Lemma unmounted_nil (ds : list Device) :
  unmountedDevices ds = [] <-> forallb isPlaced ds = true.
Proof.
  unfold unmountedDevices. induction ds as [|d ds IH]; simpl; [tauto|].
  destruct (isPlaced d); simpl; [exact IH | split; discriminate].
Qed.

End Stacking.

(** X6: In every room of the output the placed devices stay inside the rack and
    never overlap (lines 128-148): a placed device occupies units within
    1..48, and a device placed later in the list lies wholly below every
    device placed before it. *)
Theorem output_stacking (csvText : string) :
  Forall (fun g => Forall (withinRack 48) (devices g) /\
                   ForallOrdPairs liesBelow (devices g))
    (parseCSV csvText).
Proof.
  rewrite parseCSV_groups. apply Forall_forall.
  intros g [[r ds] [<- Hin]]%in_map_iff.
  unfold groupByRoom in Hin. apply in_map_iff in Hin as [r' [E _]].
  inversion E; subst r' ds. unfold rackGroup. simpl.
  apply positionDevices_stacking.
  apply Forall_forall. intros d [Hd _]%filter_In.
  now apply (proj1 (Forall_forall _ _) (created_heights csvText)).
Qed.

(** X7: A room has no unmounted device exactly when the heights of its devices
    add up to at most 48 units (lines 128-148 of the importer, line 122 of
    the rack view): nothing is left out while everything fits, and
    something is as soon as it does not. *)
Theorem output_unmounted_iff (csvText : string) :
  Forall (fun g => unmountedDevices (devices g) = [] <->
                   (totalUnits (devices g) <= 48)%Z)
    (parseCSV csvText).
Proof.
  rewrite parseCSV_groups. apply Forall_forall.
  intros g [[r ds] [<- Hin]]%in_map_iff.
  unfold groupByRoom in Hin. apply in_map_iff in Hin as [r' [E _]].
  inversion E; subst r' ds. unfold rackGroup. simpl.
  rewrite unmounted_nil.
  rewrite (totalUnits_map _ _ (positionDevices_heights _ 48)).
  apply positionDevices_all_placed; [|lia].
  apply Forall_forall. intros d [Hd _]%filter_In.
  now apply (proj1 (Forall_forall _ _) (created_heights csvText)).
Qed.

Section TrimFacts.

Lemma trimStart_headClean (s : string) : headClean (trimStart s).
Proof.
  induction s as [|c s IH]; simpl; [exact I|].
  destruct (isWhiteSpace c) eqn:E; [exact IH | exact E].
Qed.

Lemma trimStart_fixed (s : string) : headClean s -> trimStart s = s.
Proof. destruct s as [|c s]; simpl; [reflexivity|]. now intros ->. Qed.

Lemma trimEnd_headClean (s : string) : headClean s -> headClean (trimEnd s).
Proof.
  destruct s as [|c s]; simpl; [tauto|]. intros H.
  destruct (trimEnd s); [rewrite H|]; exact H.
Qed.

Lemma trimEnd_idempotent (s : string) : trimEnd (trimEnd s) = trimEnd s.
Proof.
  induction s as [|c s IH]; simpl; [reflexivity|].
  destruct (trimEnd s) as [|c' t] eqn:E.
  - destruct (isWhiteSpace c) eqn:Hc; simpl; [reflexivity | now rewrite Hc].
  - change (trimEnd (String c (String c' t)))
      with (match trimEnd (String c' t) with
            | EmptyString => if isWhiteSpace c then EmptyString else String c EmptyString
            | r' => String c r'
            end).
    now rewrite IH.
Qed.

Lemma trim_idempotent (s : string) : trim (trim s) = trim s.
Proof.
  unfold trim.
  rewrite (trimStart_fixed (trimEnd (trimStart s)))
    by apply trimEnd_headClean, trimStart_headClean.
  apply trimEnd_idempotent.
Qed.

End TrimFacts.

Section FieldCount.

Lemma parseLine_loop_length (text : string) :
  forall (result : list string) (cell : string) (inQuotes : bool),
    List.length (parseLine_loop text result cell inQuotes) =
    (List.length result + S (unquotedCommas text inQuotes))%nat.
Proof.
  induction text as [|c rest IH]; intros result cell inQuotes; simpl.
  - rewrite length_app. simpl. lia.
  - destruct (Ascii.eqb c dquote); [apply IH|].
    destruct (Ascii.eqb c comma && negb inQuotes); rewrite IH; [|reflexivity].
    rewrite length_app. simpl. lia.
Qed.

Lemma parseLine_trimmed (text : string) (f : string) :
  In f (parseLine text) -> trim f = f /\ stripQuotes f = f.
Proof.
  rewrite parseLine_split. intros [raw [<- _]]%in_map_iff. split.
  - apply trim_idempotent.
  - apply stripQuotes_notQuote, trim_allChars, removeQuotes_notQuote.
Qed.

End FieldCount.

(** X8: The fields of a line (lines 9-25): their number is one more than the
    number of commas outside quotes; each is free of surrounding white
    space; and the cleaning applied to the header fields afterwards changes
    none of them. *)
Theorem parseLine_field_count (text : string) :
  List.length (parseLine text) = S (unquotedCommas text false) /\
  Forall (fun f => trim f = f) (parseLine text) /\
  headersOf text = parseLine text.
Proof.
  split; [unfold parseLine; now rewrite parseLine_loop_length|]. split.
  - apply Forall_forall. intros f Hf. now apply parseLine_trimmed in Hf.
  - unfold headersOf. rewrite <- (map_id (parseLine text)) at 2.
    apply map_ext_in. intros f Hf.
    apply parseLine_trimmed in Hf as [Ht Hs]. now rewrite Hs.
Qed.

Section RoundTrip.

Lemma loop_inside_quotes (f : string) :
  allChars notQuote f = true ->
  forall (rest : string) (result : list string) (cell : string),
    parseLine_loop (f ++ rest) result cell true =
    parseLine_loop rest result (cell ++ f) true.
Proof.
  induction f as [|c f IH]; intros Hf rest result cell; simpl.
  - now rewrite append_nil_r.
  - simpl in Hf. apply andb_prop in Hf as [Hc Hf].
    unfold notQuote in Hc. apply negb_true_iff in Hc.
    rewrite Hc, andb_false_r, IH by assumption.
    now rewrite append_assoc.
Qed.

Lemma loop_quoted_field (f rest : string) (result : list string) (cell : string) :
  allChars notQuote f = true ->
  parseLine_loop (quoteField f ++ rest) result cell false =
  parseLine_loop rest result (cell ++ f) false.
Proof.
  intros Hf. unfold quoteField, quote.
  rewrite !append_assoc. simpl.
  rewrite loop_inside_quotes by assumption. reflexivity.
Qed.

Lemma loop_bare_field (f : string) :
  allChars notQuote f = true -> allChars notComma f = true ->
  forall (rest : string) (result : list string) (cell : string),
    parseLine_loop (f ++ rest) result cell false =
    parseLine_loop rest result (cell ++ f) false.
Proof.
  induction f as [|c f IH]; intros Hq Hc rest result cell; simpl.
  - now rewrite append_nil_r.
  - simpl in Hq, Hc. apply andb_prop in Hq as [Hq1 Hq]. apply andb_prop in Hc as [Hc1 Hc].
    unfold notQuote in Hq1. unfold notComma in Hc1.
    apply negb_true_iff in Hq1. apply negb_true_iff in Hc1.
    rewrite Hq1, Hc1. simpl. rewrite IH by assumption.
    now rewrite append_assoc.
Qed.

Lemma joinFields_cons (x y : string) (l : list string) :
  joinFields (x :: y :: l) = (x ++ String comma (joinFields (y :: l)))%string.
Proof. reflexivity. Qed.

Lemma loop_joined (write : string -> string) (fields : list string) :
  (forall (f rest : string) (result : list string),
      In f fields ->
      parseLine_loop (write f ++ rest) result EmptyString false =
      parseLine_loop rest result f false) ->
  Forall (fun f => trim f = f) fields ->
  fields <> [] ->
  forall result : list string,
    parseLine_loop (joinFields (map write fields)) result EmptyString false =
    result ++ fields.
Proof.
  intros Hw Ht. induction fields as [|f fs IH]; intros Hne result; [contradiction|].
  inversion Ht as [|? ? Hf Hfs]; subst.
  destruct fs as [|f2 fs].
  - change (joinFields (map write [f])) with (write f).
    rewrite <- (append_nil_r (write f)), Hw by (now left). simpl. now rewrite Hf.
  - change (map write (f :: f2 :: fs)) with (write f :: write f2 :: map write fs).
    rewrite joinFields_cons, Hw by (now left).
    simpl parseLine_loop. rewrite Hf.
    change (write f2 :: map write fs) with (map write (f2 :: fs)).
    rewrite IH; [now rewrite <- app_assoc | | assumption | discriminate].
    intros f' rest' result' Hin. apply Hw. now right.
Qed.

End RoundTrip.

(** X9: Writing fields between quotes and joining them with commas is undone
    by [parseLine] (lines 9-23): for a non-empty list of fields that hold
    no quote and no surrounding white space, splitting the joined line
    gives the fields back, commas inside the fields included; when the
    fields hold no comma either, the quotes can be left out. *)
Theorem parseLine_round_trip (fields : list string) :
  fields <> [] ->
  Forall (fun f => allChars notQuote f = true /\ trim f = f) fields ->
  parseLine (joinFields (map quoteField fields)) = fields /\
  (Forall (fun f => allChars notComma f = true) fields ->
   parseLine (joinFields fields) = fields).
Proof.
  intros Hne Hok.
  assert (Ht : Forall (fun f => trim f = f) fields)
    by (revert Hok; apply Forall_impl; tauto).
  split.
  - unfold parseLine. rewrite (loop_joined quoteField); try assumption; [reflexivity|].
    intros f rest result Hin.
    apply (proj1 (Forall_forall _ _) Hok) in Hin as [Hq _].
    now rewrite loop_quoted_field.
  - intros Hc. unfold parseLine.
    rewrite <- (map_id fields) at 1.
    rewrite (loop_joined (fun f => f)); try assumption; [reflexivity|].
    intros f rest result Hin.
    pose proof (proj1 (Forall_forall _ _) Hok _ Hin) as [Hq _].
    pose proof (proj1 (Forall_forall _ _) Hc _ Hin) as Hcm.
    now rewrite loop_bare_field.
Qed.

(** X9, witness: The round trip at two fields, the first with a comma and a space. *)
Lemma parseLine_round_trip_witness :
  parseLine (joinFields (map quoteField ["a, b"; "c"])) = ["a, b"; "c"].
Proof.
  refine (proj1 (parseLine_round_trip ["a, b"; "c"] _ _)).
  - discriminate.
  - repeat constructor.
Defined.

Section ColumnResolution.

Lemma findIndex_first (A : Type) (p : A -> bool) (l : list A) :
  match findIndex p l with
  | Some j =>
      (j < List.length l)%nat /\
      match nth_error l j with
      | Some x => p x = true
      | None => False
      end /\
      forallb (fun x => negb (p x)) (firstn j l) = true
  | None => forallb (fun x => negb (p x)) l = true
  end.
Proof.
  induction l as [|x l IH]; simpl; [reflexivity|].
  destruct (p x) eqn:E; simpl.
  - repeat split; [lia | exact E].
  - destruct (findIndex p l) as [j|]; simpl.
    + destruct IH as [H1 [H2 H3]]. rewrite E. simpl. repeat split; [lia | exact H2 | exact H3].
    + exact IH.
Qed.

Lemma toLowerChar_idempotent (c : ascii) :
  toLowerChar (toLowerChar c) = toLowerChar c.
Proof. destruct c as [[] [] [] [] [] [] [] []]; reflexivity. Qed.

Lemma toLowerCase_idempotent (s : string) :
  toLowerCase (toLowerCase s) = toLowerCase s.
Proof.
  induction s as [|c s IH]; simpl; [reflexivity|].
  now rewrite toLowerChar_idempotent, IH.
Qed.

Lemma findIndex_ext (A B : Type) (p : A -> bool) (q : B -> bool) (f : B -> A)
    (l : list B) :
  (forall x, p (f x) = q x) -> findIndex p (map f l) = findIndex q l.
Proof.
  intros H. induction l as [|x l IH]; simpl; [reflexivity|].
  now rewrite H, IH.
Qed.

Lemma headerMatches_lower (keywords : list string) (h : string) :
  headerMatches keywords (toLowerCase h) = headerMatches keywords h /\
  headerMatches (map toLowerCase keywords) h = headerMatches keywords h.
Proof.
  unfold headerMatches. split.
  - now rewrite toLowerCase_idempotent.
  - induction keywords as [|k ks IH]; simpl; [reflexivity|].
    now rewrite toLowerCase_idempotent, IH.
Qed.

End ColumnResolution.

(** X10: Column resolution (lines 28-29) picks the first header that contains
    one of the keywords, letter case apart: the index it returns is that of
    a header that matches, no header before it matches, and it returns
    nothing exactly when no header matches; changing the case of the
    headers or of the keywords changes nothing. *)
Theorem getColIndex_first_match (headers keywords : list string) :
  match getColIndex headers keywords with
  | Some j =>
      (j < List.length headers)%nat /\
      match nth_error headers j with
      | Some h => headerMatches keywords h = true
      | None => False
      end /\
      forallb (fun h => negb (headerMatches keywords h)) (firstn j headers) = true
  | None => forallb (fun h => negb (headerMatches keywords h)) headers = true
  end /\
  getColIndex (map toLowerCase headers) keywords = getColIndex headers keywords /\
  getColIndex headers (map toLowerCase keywords) = getColIndex headers keywords.
Proof.
  split; [exact (findIndex_first _ (headerMatches keywords) headers)|]. split.
  - apply (findIndex_ext _ _ (headerMatches keywords) (headerMatches keywords)).
    intros h. apply headerMatches_lower.
  - change (findIndex (headerMatches (map toLowerCase keywords)) headers =
            findIndex (headerMatches keywords) headers).
    rewrite <- (map_id headers) at 1.
    apply (findIndex_ext _ _ _ _ (fun h => h)). intros h. apply headerMatches_lower.
Qed.

(* ================================================================== *)
(** * The rack view *)
(* ================================================================== *)

Section Occupation.

Lemma occGet_occSet (m : OccupationMap) (u u' : Z) (d : Device) :
  occGet (occSet m u d) u' = if (u =? u')%Z then Some d else occGet m u'.
Proof.
  induction m as [|[k d'] m IH]; simpl; [reflexivity|].
  destruct (Z.eqb_spec k u) as [->|Hku]; simpl.
  - destruct (u =? u')%Z; reflexivity.
  - rewrite IH. destruct (Z.eqb_spec k u') as [->|]; [|reflexivity].
    destruct (Z.eqb_spec u u'); [congruence | reflexivity].
Qed.

Lemma occGet_span (d : Device) (pos u : Z) (n : nat) :
  forall (a : nat) (m : OccupationMap),
    occGet (fold_left (fun m i => occSet m (pos - Z.of_nat i)%Z d) (seq a n) m) u =
    if ((pos - Z.of_nat (a + n) <? u) && (u <=? pos - Z.of_nat a))%Z
    then Some d else occGet m u.
Proof.
  induction n as [|n IH]; intros a m; simpl.
  - destruct (Z.ltb_spec (pos - Z.of_nat (a + 0)) u);
      destruct (Z.leb_spec u (pos - Z.of_nat a)); simpl; try reflexivity; lia.
  - rewrite IH, occGet_occSet.
    destruct (Z.ltb_spec (pos - Z.of_nat (S a + n)) u);
      destruct (Z.leb_spec u (pos - Z.of_nat (S a)));
      destruct (Z.ltb_spec (pos - Z.of_nat (a + S n)) u);
      destruct (Z.leb_spec u (pos - Z.of_nat a));
      destruct (Z.eqb_spec (pos - Z.of_nat a) u); simpl; try reflexivity; lia.
Qed.

Lemma occGet_occupy (m : OccupationMap) (d : Device) (u : Z) :
  occGet (occupy m d) u = if covers d u then Some d else occGet m u.
Proof.
  unfold occupy, covers. destruct (uPosition d) as [pos|]; [|reflexivity].
  destruct (Z.eqb_spec pos 0); simpl; [reflexivity|].
  rewrite occGet_span. simpl (0 + _)%nat. rewrite Z.sub_0_r.
  destruct (Z.ltb_spec (pos - Z.of_nat (Z.to_nat (uHeight d))) u);
    destruct (Z.ltb_spec (pos - uHeight d) u);
    destruct (Z.leb_spec u pos); simpl; try reflexivity; lia.
Qed.

Lemma occGet_devices (devices : list Device) (u : Z) :
  forall m : OccupationMap,
    occGet (fold_left occupy devices m) u =
    match lastCovering devices u with
    | Some d => Some d
    | None => occGet m u
    end.
Proof.
  induction devices as [|d ds IH]; intros m; simpl; [reflexivity|].
  rewrite IH. destruct (lastCovering ds u); [reflexivity|].
  rewrite occGet_occupy. destruct (covers d u); reflexivity.
Qed.

Lemma lastCovering_Some (devices : list Device) (u : Z) (d : Device) :
  lastCovering devices u = Some d -> In d devices /\ covers d u = true.
Proof.
  induction devices as [|d0 ds IH]; simpl; [discriminate|].
  destruct (lastCovering ds u) as [d'|].
  - intros [= <-]. destruct (IH eq_refl). auto.
  - destruct (covers d0 u) eqn:E; [|discriminate]. intros [= <-]. auto.
Qed.

Lemma lastCovering_None (devices : list Device) (u : Z) :
  lastCovering devices u = None ->
  forallb (fun d => negb (covers d u)) devices = true.
Proof.
  induction devices as [|d0 ds IH]; simpl; [reflexivity|].
  destruct (lastCovering ds u) as [d'|]; [discriminate|].
  destruct (covers d0 u); [discriminate|]. intros _. now apply IH.
Qed.

Lemma covers_height (d : Device) (u : Z) : covers d u = true -> (1 <= uHeight d)%Z.
Proof.
  unfold covers. destruct (uPosition d) as [pos|]; [|discriminate].
  intros [[_ H1]%andb_prop H2]%andb_prop.
  apply Z.ltb_lt in H1. apply Z.leb_le in H2. lia.
Qed.

End Occupation.

(** X11: The occupation map of the rack view (lines 225-232): looking up a unit
    gives the last device of the list that is placed at a position other
    than 0 and whose units, from its position downward, include that unit;
    it gives nothing exactly when no device covers the unit. *)
Theorem occupationMap_lookup (devices : list Device) (u : Z) :
  occGet (occupationMap devices) u = lastCovering devices u /\
  match occGet (occupationMap devices) u with
  | Some d =>
      In d devices /\
      match uPosition d with
      | Some pos => pos <> 0%Z /\ (pos - uHeight d < u <= pos)%Z
      | None => False
      end
  | None => forallb (fun d => negb (covers d u)) devices = true
  end.
Proof.
  assert (E : occGet (occupationMap devices) u = lastCovering devices u).
  { unfold occupationMap. rewrite occGet_devices.
    destruct (lastCovering devices u); reflexivity. }
  split; [exact E|]. rewrite E.
  destruct (lastCovering devices u) as [d|] eqn:L.
  - apply lastCovering_Some in L as [Hin Hc]. split; [exact Hin|].
    unfold covers in Hc. destruct (uPosition d) as [pos|]; [|discriminate].
    apply andb_prop in Hc as [[H0 H1]%andb_prop H2].
    apply negb_true_iff, Z.eqb_neq in H0.
    apply Z.ltb_lt in H1. apply Z.leb_le in H2. lia.
  - now apply lastCovering_None.
Qed.

Section RenderRack.

Lemma loop_done (fuel : nat) (occ : OccupationMap) (u : Z) (slots : list Slot) :
  (u < 1)%Z -> renderRack_loop fuel occ u slots = Some slots.
Proof.
  intros H. destruct fuel; simpl;
    destruct (Z.leb_spec 1 u); try reflexivity; lia.
Qed.

Lemma loop_step (fuel : nat) (occ : OccupationMap) (u : Z) (slots : list Slot) :
  (1 <= u)%Z ->
  renderRack_loop (S fuel) occ u slots =
  match occGet occ u with
  | Some device =>
      if positionIs device u
      then renderRack_loop fuel occ (u - uHeight device + 1 - 1)%Z
             (slots ++ [DeviceSlot u device (uHeight device * U_HEIGHT_PX)%Z])
      else renderRack_loop fuel occ (u - 1)%Z slots
  | None => renderRack_loop fuel occ (u - 1)%Z (slots ++ [EmptySlot u])
  end.
Proof.
  intros H. simpl. destruct (Z.leb_spec 1 u); [reflexivity | lia].
Qed.

(** One iteration per rack unit is enough on every occupation map read from
    a device list. *)
Lemma loop_total (devices : list Device) (fuel : nat) :
  forall (u : Z) (slots : list Slot),
    (Z.to_nat u <= fuel)%nat ->
    renderRack_loop fuel (occupationMap devices) u slots <> None.
Proof.
  induction fuel as [|fuel IH]; intros u slots Hf.
  - rewrite loop_done by lia. discriminate.
  - destruct (Z.lt_ge_cases u 1) as [Hu|Hu]; [rewrite loop_done by lia; discriminate|].
    rewrite loop_step by assumption.
    destruct (occGet (occupationMap devices) u) as [d|] eqn:E.
    + assert (Hh : (1 <= uHeight d)%Z).
      { unfold occupationMap in E. rewrite occGet_devices in E.
        destruct (lastCovering devices u) as [d'|] eqn:L; [|discriminate].
        injection E as ->. apply lastCovering_Some in L as [_ Hc].
        now apply covers_height in Hc. }
      destruct (positionIs d u); apply IH; lia.
    + apply IH. lia.
Qed.

Lemma downFrom_step (u : Z) :
  (1 <= u)%Z -> downFrom (Z.to_nat u) = u :: downFrom (Z.to_nat (u - 1)).
Proof.
  intros H. replace (Z.to_nat u) with (S (Z.to_nat (u - 1))) by lia.
  simpl downFrom. f_equal. lia.
Qed.

(** Below the lowest device the loop draws one empty slot per unit. *)
Lemma loop_empty (occ : OccupationMap) (fuel : nat) :
  forall (u : Z) (slots : list Slot),
    (forall v, (v <= u)%Z -> occGet occ v = None) ->
    (Z.to_nat u <= fuel)%nat ->
    renderRack_loop fuel occ u slots =
    Some (slots ++ map EmptySlot (downFrom (Z.to_nat u))).
Proof.
  induction fuel as [|fuel IH]; intros u slots Hocc Hf.
  - rewrite loop_done by lia. replace (Z.to_nat u) with 0%nat by lia.
    simpl. now rewrite app_nil_r.
  - destruct (Z.lt_ge_cases u 1) as [Hu|Hu].
    + rewrite loop_done by lia. replace (Z.to_nat u) with 0%nat by lia.
      simpl. now rewrite app_nil_r.
    + rewrite loop_step, Hocc, IH by (try lia; intros; apply Hocc; lia).
      rewrite (downFrom_step u) by assumption. simpl. now rewrite <- app_assoc.
Qed.

Lemma lastCovering_above (c u : Z) (devices : list Device) :
  Forall (withinRack c) devices -> (c < u)%Z -> lastCovering devices u = None.
Proof.
  intros H Hu. induction H as [|d ds Hd Hds IH]; simpl; [reflexivity|].
  rewrite IH. unfold covers. unfold withinRack in Hd.
  destruct (uPosition d) as [pos|]; [|reflexivity].
  destruct (Z.leb_spec u pos); [lia|]. now rewrite andb_false_r.
Qed.

(** On a stack built by the allocator the loop draws the placed devices
    from the top down and then the free units. *)
Lemma loop_stacked (occ : OccupationMap) (ds : list Device) :
  Forall (fun d => (1 <= uHeight d)%Z) ds ->
  forall (c : Z) (fuel : nat) (slots : list Slot),
    (0 <= c)%Z -> (Z.to_nat c <= fuel)%nat ->
    (forall u, (u <= c)%Z -> occGet occ u = lastCovering (positionDevices c ds) u) ->
    renderRack_loop fuel occ c slots =
    Some (slots ++ slotsOf (positionDevices c ds)
            ++ map EmptySlot (downFrom (Z.to_nat (cursorAfter c ds)))).
Proof.
  induction 1 as [|d ds Hd Hds IH]; intros c fuel slots Hc Hf Hocc.
  - simpl. apply loop_empty; assumption.
  - simpl in *. destruct (Z.leb_spec 1 (c - uHeight d + 1)) as [Hfit|Hfit].
    + destruct fuel as [|fuel]; [lia|].
      pose proof (positionDevices_stacking ds Hds (c - uHeight d)%Z) as [Hin _].
      assert (Htop : occGet occ c = Some (placeAt d c)).
      { rewrite Hocc by lia. simpl.
        rewrite (lastCovering_above (c - uHeight d) c) by (assumption || lia).
        unfold covers. simpl.
        destruct (Z.eqb_spec c 0); [lia|].
        destruct (Z.ltb_spec (c - uHeight d) c); [|lia].
        destruct (Z.leb_spec c c); [reflexivity | lia]. }
      rewrite loop_step, Htop by lia.
      unfold positionIs. simpl uPosition. cbv iota. rewrite Z.eqb_refl.
      replace (c - uHeight (placeAt d c) + 1 - 1)%Z with (c - uHeight d)%Z
        by (simpl; lia).
      rewrite IH; [simpl; now rewrite <- app_assoc | lia | lia |].
      intros u Hu. rewrite Hocc by lia. simpl.
      destruct (lastCovering (positionDevices (c - uHeight d) ds) u); [reflexivity|].
      unfold covers. simpl.
      destruct (Z.ltb_spec (c - uHeight d) u); [lia|]. now rewrite andb_false_r.
    + simpl. apply IH; try assumption.
      intros u Hu. rewrite Hocc by assumption. simpl.
      now destruct (lastCovering (positionDevices c ds) u).
Qed.

Lemma unitsOf_app (s t : list Slot) : unitsOf (s ++ t) = (unitsOf s + unitsOf t)%Z.
Proof. induction s as [|x s IH]; simpl; [reflexivity | rewrite IH; lia]. Qed.

Lemma unitsOf_slotsOf (devices : list Device) :
  unitsOf (slotsOf devices) = placedUnits devices.
Proof.
  induction devices as [|d ds IH]; simpl; [reflexivity|].
  destruct (uPosition d); simpl; rewrite <- IH; [|reflexivity].
  unfold slotsOf. simpl. reflexivity.
Qed.

Lemma unitsOf_empty (n : nat) : unitsOf (map EmptySlot (downFrom n)) = Z.of_nat n.
Proof.
  induction n as [|n IH]; [reflexivity|].
  change (unitsOf (map EmptySlot (downFrom (S n))))
    with (1 + unitsOf (map EmptySlot (downFrom n)))%Z.
  rewrite IH. lia.
Qed.

Lemma cursorAfter_nonneg (ds : list Device) :
  forall c : Z, (0 <= c)%Z -> (0 <= cursorAfter c ds)%Z.
Proof.
  induction ds as [|d ds IH]; intros c Hc; simpl; [exact Hc|].
  destruct (Z.leb_spec 1 (c - uHeight d + 1)); apply IH; lia.
Qed.

Lemma renderRack_stacked (ds : list Device) (c : Z) :
  Forall (fun d => (1 <= uHeight d)%Z) ds -> (0 <= c)%Z ->
  renderRack c (positionDevices c ds) =
  Some (slotsOf (positionDevices c ds)
          ++ map EmptySlot
               (downFrom (Z.to_nat (c - placedUnits (positionDevices c ds))))).
Proof.
  intros Hds Hc. unfold renderRack.
  rewrite (loop_stacked _ ds Hds c) by
    (try lia; intros u _; unfold occupationMap; rewrite occGet_devices;
     now destruct (lastCovering (positionDevices c ds) u)).
  now rewrite cursorAfter_placedUnits.
Qed.

End RenderRack.

(** X12: [renderRack] always comes to an end (lines 388-466): whatever the
    devices and the rack size, moving past a drawn device takes the loop
    down by at least one unit, so that one iteration per rack unit is
    enough. *)
Theorem renderRack_terminates (rackSize : Z) (devices : list Device) :
  renderRack rackSize devices <> None.
Proof. unfold renderRack. apply loop_total. lia. Qed.

(** X13: The rack view of an import (lines 225-232 and 386-468 on the output of
    the importer): for every room, a rack of 48 units shows the placed
    devices in list order from the top, each at its position and with 30
    pixels per unit of height, followed by one empty slot for each free
    unit down to unit 1; the slots take up 48 units together. *)
Theorem renderRack_of_import (csvText : string) :
  Forall (fun g =>
            match renderRack 48 (devices g) with
            | Some slots =>
                slots = slotsOf (devices g)
                          ++ map EmptySlot
                               (downFrom (Z.to_nat (48 - placedUnits (devices g)))) /\
                unitsOf slots = 48%Z
            | None => False
            end)
    (parseCSV csvText).
Proof.
  rewrite parseCSV_groups. apply Forall_forall.
  intros g [[r ds] [<- Hin]]%in_map_iff.
  unfold groupByRoom in Hin. apply in_map_iff in Hin as [r' [E _]].
  inversion E; subst r' ds. unfold rackGroup. simpl devices.
  assert (Hh : Forall (fun d => (1 <= uHeight d)%Z) (inRoom r (createdDevices csvText))).
  { apply Forall_forall. intros d [Hd _]%filter_In.
    now apply (proj1 (Forall_forall _ _) (created_heights csvText)). }
  rewrite renderRack_stacked by (assumption || lia).
  split; [reflexivity|].
  rewrite unitsOf_app, unitsOf_slotsOf, unitsOf_empty.
  pose proof (cursorAfter_nonneg (inRoom r (createdDevices csvText)) 48 ltac:(lia)) as Hc.
  rewrite cursorAfter_placedUnits in Hc. lia.
Qed.

Section Sockets.

Variable pdu : string.
Variable index : nat.

Lemma find_snoc (A : Type) (p : A -> bool) (l : list A) (x : A) :
  find p (l ++ [x]) =
  match find p l with
  | Some y => Some y
  | None => if p x then Some x else None
  end.
Proof.
  induction l as [|a l IH]; simpl; [reflexivity|].
  destruct (p a); [reflexivity | exact IH].
Qed.

Lemma matchingPsu_fold (slots : list (nat * option PSUConnection)) :
  forall found : option nat,
    fold_left
      (fun found entry =>
         match snd entry with
         | Some conn =>
             if String.eqb (pduId conn) pdu && (socketIndex conn =? index)%nat
             then Some (fst entry) else found
         | None => found
         end) slots found =
    match find (pluggedInto pdu index) (rev slots) with
    | Some entry => Some (fst entry)
    | None => found
    end.
Proof.
  induction slots as [|e slots IH]; intros found; simpl; [reflexivity|].
  rewrite IH, find_snoc.
  destruct (find (pluggedInto pdu index) (rev slots)); [reflexivity|].
  unfold pluggedInto.
  destruct (snd e) as [conn|]; [|reflexivity].
  destruct (String.eqb (pduId conn) pdu && (socketIndex conn =? index)%nat); reflexivity.
Qed.

Lemma matchingPsu_Some (d : Device) (psu : nat) :
  matchingPsu d pdu index = Some psu ->
  exists conn, In (psu, Some conn) (psuConnections d) /\
               pduId conn = pdu /\ socketIndex conn = index.
Proof.
  unfold matchingPsu. rewrite matchingPsu_fold.
  destruct (find (pluggedInto pdu index) (rev (psuConnections d))) as [[k c]|] eqn:F;
    [|discriminate].
  intros [= <-]. apply find_some in F as [Hin Hp].
  apply in_rev in Hin. unfold pluggedInto in Hp. simpl in *.
  destruct c as [conn|]; [|discriminate].
  apply andb_prop in Hp as [H1%String.eqb_eq H2%Nat.eqb_eq].
  now exists conn.
Qed.

Lemma matchingPsu_None (d : Device) :
  matchingPsu d pdu index = None ->
  forallb (fun slot => negb (pluggedInto pdu index slot)) (psuConnections d) = true.
Proof.
  unfold matchingPsu. rewrite matchingPsu_fold.
  destruct (find (pluggedInto pdu index) (rev (psuConnections d))) eqn:F;
    [discriminate|]. intros _.
  apply forallb_forall. intros slot Hin. apply negb_true_iff.
  apply (find_none _ _ F). now apply in_rev in Hin.
Qed.

Lemma matchingPsu_unplugged (d : Device) :
  Forall (fun slot => snd slot = None) (psuConnections d) ->
  matchingPsu d pdu index = None.
Proof.
  unfold matchingPsu. rewrite matchingPsu_fold. intros H.
  destruct (find (pluggedInto pdu index) (rev (psuConnections d))) as [e|] eqn:F;
    [|reflexivity].
  apply find_some in F as [Hin Hp]. apply in_rev in Hin.
  apply (proj1 (Forall_forall _ _) H) in Hin.
  unfold pluggedInto in Hp. rewrite Hin in Hp. discriminate.
Qed.

End Sockets.

(** X14: The socket search of [renderSocket] (lines 471-486): a socket counts as
    occupied exactly when a power supply of some device is plugged into it;
    the device found is in the list and the power supply found is one of
    its own, connected to that very socket.  After an import no socket of
    any PDU is occupied. *)
Theorem connectedDevice_found (ds : list Device) (pdu : string) (index : nat) :
  match connectedDevice ds pdu index with
  | Some (d, psu) =>
      In d ds /\
      exists conn, In (psu, Some conn) (psuConnections d) /\
                   pduId conn = pdu /\ socketIndex conn = index
  | None =>
      forallb (fun d => forallb (fun slot => negb (pluggedInto pdu index slot))
                          (psuConnections d)) ds = true
  end /\
  forall csvText : string,
    Forall (fun g => connectedDevice (devices g) pdu index = None)
      (parseCSV csvText).
Proof.
  split.
  - induction ds as [|d ds IH]; simpl; [reflexivity|].
    destruct (matchingPsu d pdu index) as [psu|] eqn:M.
    + split; [now left | now apply matchingPsu_Some].
    + destruct (connectedDevice ds pdu index) as [[d' psu']|].
      * destruct IH as [Hin Hc]. split; [now right | exact Hc].
      * apply matchingPsu_None in M. now rewrite M.
  - intros csvText. apply Forall_forall. intros g Hg.
    assert (Hall : Forall (fun d => Forall (fun slot => snd slot = None)
                                      (psuConnections d)) (devices g)).
    { apply Forall_forall. intros d Hd.
      apply (output_connections csvText), in_flat_map. now exists g. }
    induction Hall as [|d l Hd Hl IH]; simpl; [reflexivity|].
    now rewrite matchingPsu_unplugged.
Qed.

(* ================================================================== *)
(** * White space around lines and around the text *)
(* ================================================================== *)

Section SurroundingBlank.

Lemma trimStart_prepend_blank (w s : string) :
  allChars isWhiteSpace w = true -> trimStart (w ++ s) = trimStart s.
Proof.
  induction w as [|c w IH]; simpl; [reflexivity|].
  intros [Hc Hw]%andb_prop. rewrite Hc. now apply IH.
Qed.

Lemma trimEnd_blank (w : string) :
  allChars isWhiteSpace w = true -> trimEnd w = EmptyString.
Proof.
  induction w as [|c w IH]; simpl; [reflexivity|].
  intros [Hc Hw]%andb_prop. now rewrite IH, Hc.
Qed.

Lemma trimEnd_append_blank (s w : string) :
  allChars isWhiteSpace w = true -> trimEnd (s ++ w) = trimEnd s.
Proof.
  intros Hw. induction s as [|c s IH]; simpl.
  - now apply trimEnd_blank.
  - now rewrite IH.
Qed.

Lemma trimStart_append (s w : string) :
  trimStart (s ++ w) =
  if allChars isWhiteSpace s then trimStart w else (trimStart s ++ w)%string.
Proof.
  induction s as [|c s IH]; simpl; [reflexivity|].
  destruct (isWhiteSpace c); [exact IH | reflexivity].
Qed.

Lemma trim_append_blank (s w : string) :
  allChars isWhiteSpace w = true -> trim (s ++ w) = trim s.
Proof.
  intros Hw. unfold trim. rewrite trimStart_append.
  destruct (allChars isWhiteSpace s) eqn:Hs.
  - now rewrite (trimStart_blank w), (trimStart_blank s).
  - now apply trimEnd_append_blank.
Qed.

Lemma trim_prepend_blank (w s : string) :
  allChars isWhiteSpace w = true -> trim (w ++ s) = trim s.
Proof. intros Hw. unfold trim. now rewrite trimStart_prepend_blank. Qed.

Lemma blank_not_special (c : ascii) :
  isWhiteSpace c = true -> Ascii.eqb c dquote = false /\ Ascii.eqb c comma = false.
Proof.
  intros H. split.
  - destruct (Ascii.eqb_spec c dquote) as [->|]; [discriminate H | reflexivity].
  - destruct (Ascii.eqb_spec c comma) as [->|]; [discriminate H | reflexivity].
Qed.

(** White space at the start of a cell does not show in the fields. *)
Lemma loop_cell_blank (w : string) :
  allChars isWhiteSpace w = true ->
  forall (text : string) (result : list string) (cell : string) (inQuotes : bool),
    parseLine_loop text result (w ++ cell) inQuotes =
    parseLine_loop text result cell inQuotes.
Proof.
  intros Hw. induction text as [|c rest IH]; intros result cell inQuotes; simpl.
  - now rewrite trim_prepend_blank.
  - destruct (Ascii.eqb c dquote); [apply IH|].
    destruct (Ascii.eqb c comma && negb inQuotes).
    + now rewrite trim_prepend_blank.
    + rewrite append_assoc. apply IH.
Qed.

Lemma loop_leading_blank (w : string) :
  allChars isWhiteSpace w = true ->
  forall (text : string) (result : list string) (cell : string) (inQuotes : bool),
    parseLine_loop (w ++ text) result cell inQuotes =
    parseLine_loop text result (cell ++ w) inQuotes.
Proof.
  induction w as [|c w IH]; intros Hw text result cell inQuotes; simpl.
  - now rewrite append_nil_r.
  - simpl in Hw. apply andb_prop in Hw as [Hc Hw].
    destruct (blank_not_special c Hc) as [-> ->]. simpl.
    rewrite IH by assumption. now rewrite append_assoc.
Qed.

Lemma loop_trailing_blank (w : string) :
  allChars isWhiteSpace w = true ->
  forall (text : string) (result : list string) (cell : string) (inQuotes : bool),
    parseLine_loop (text ++ w) result cell inQuotes =
    parseLine_loop text result cell inQuotes.
Proof.
  intros Hw. induction text as [|c rest IH]; intros result cell inQuotes.
  - simpl append. rewrite <- (append_nil_r w) at 1.
    rewrite loop_leading_blank by assumption. simpl.
    now rewrite trim_append_blank.
  - simpl. destruct (Ascii.eqb c dquote); [apply IH|].
    destruct (Ascii.eqb c comma && negb inQuotes); apply IH.
Qed.

End SurroundingBlank.

(** X15: White space before and after a line, a carriage return at its end
    included, does not change its fields (lines 9-23). *)
Theorem parseLine_surrounding_blank (pre text post : string) :
  allChars isWhiteSpace pre = true ->
  allChars isWhiteSpace post = true ->
  parseLine (pre ++ text ++ post) = parseLine text.
Proof.
  intros Hpre Hpost. unfold parseLine.
  rewrite loop_leading_blank, loop_trailing_blank by assumption.
  simpl append. rewrite <- (append_nil_r pre).
  now apply loop_cell_blank.
Qed.

(** X15, witness: A line with a space before it and a carriage return after it. *)
Lemma parseLine_surrounding_blank_witness :
  parseLine (" " ++ "a,b" ++ String "013"%char EmptyString) = parseLine "a,b".
Proof.
  exact (parseLine_surrounding_blank " " "a,b" (String "013"%char EmptyString)
           eq_refl eq_refl).
Defined.

(** X16: White space and blank lines before and after the whole text do not
    change the result of the import (line 5). *)
Theorem parseCSV_surrounding_blank (pre csvText post : string) :
  allChars isWhiteSpace pre = true ->
  allChars isWhiteSpace post = true ->
  parseCSV (pre ++ csvText ++ post) = parseCSV csvText.
Proof.
  intros Hpre Hpost. unfold parseCSV.
  now rewrite trim_prepend_blank, trim_append_blank.
Qed.

(** X16, witness: The overflow input between two blank lines. *)
Lemma parseCSV_surrounding_blank_witness :
  parseCSV (nl ++ overflowInput ++ (nl ++ " " ++ nl)) = parseCSV overflowInput.
Proof.
  exact (parseCSV_surrounding_blank nl overflowInput (nl ++ " " ++ nl)
           eq_refl eq_refl).
Defined.
